(** * Google Drive file collector: discovery, content fetch, attribution

    Shallow embedding of the discovery-and-synchronisation pipeline of
    [drive_flie_list.py], [google_drive_reader.py] and [collect_all.py],
    and the properties of it that the design document states.

    Conventions of the embedding.
    - A Python [dict] holding a Drive record or a Mongo document is a
      [gmap string value]; [d[k]] on a missing key raises [KeyError],
      [d.get(k, dflt)] does not.
    - Python exceptions are values of [exn]; a computation ends in
      [Ok], in [Raise], or, for the unbounded [while True] loops and the
      recursion over the remote folder tree, in [Diverge] when the fuel of
      the model runs out.  [except Exception] catches [Raise] only.
    - The remote store is an abstract state [W] with three entry points
      (get, list, export); every request is appended to a call log.
    - Dates are an abstract type with the operations the code uses
      ([strptime], [strftime], going back a number of days, today);
      going back is total, no date is too early for it.
    - [print] lines are not modelled. *)

From stdpp Require Import base option list strings gmap functions.
From Stdlib Require Import Ascii.

Open Scope string_scope.
Open Scope list_scope.

(** ** Values held by the fields of a record *)

(** The JSON values the pipeline reads: [None], a string, a list of
    strings (the [parents] field). *)
Inductive value :=
  | VNone
  | VStr (s : string)
  | VList (l : list string).

#[global] Instance value_eq_dec : EqDecision value.
Proof. solve_decision. Defined.

Definition value_encode (v : value) : option (string + list string) :=
  match v with
  | VNone => None
  | VStr s => Some (inl s)
  | VList l => Some (inr l)
  end.

Definition value_decode (x : option (string + list string)) : value :=
  match x with
  | None => VNone
  | Some (inl s) => VStr s
  | Some (inr l) => VList l
  end.

#[global] Instance value_countable : Countable value.
Proof.
  apply (inj_countable' value_encode value_decode).
  intros []; reflexivity.
Defined.

Abbreviation dict := (gmap string value).

(** Python truthiness of the objects the code tests with [if x] / [if not x]. *)
Definition truthy_str (s : string) : bool :=
  match s with EmptyString => false | _ => true end.

Definition truthy_opt_str (o : option string) : bool :=
  match o with Some s => truthy_str s | None => false end.

Definition truthy_list {A} (l : list A) : bool :=
  match l with [] => false | _ => true end.

Definition truthy_opt_list {A} (o : option (list A)) : bool :=
  match o with Some l => truthy_list l | None => false end.

Definition truthy_dict (d : dict) : bool :=
  bool_decide (d ≠ ∅).

Definition truthy_opt_dict (o : option dict) : bool :=
  match o with Some d => truthy_dict d | None => false end.

(** Only strings and [None] can be put in a Python [set]; a list is
    unhashable. *)
Definition hashable (v : value) : bool :=
  match v with VList _ => false | _ => true end.

(** ** Exceptions and outcomes *)

Inductive exn :=
  | HttpError
  | KeyError
  | IndexError
  | TypeError
  | ValueError
  | AttributeError
  | OtherError.

#[global] Instance exn_eq_dec : EqDecision exn.
Proof. solve_decision. Defined.

(** What a remote request gives back: it answers or it raises. *)
Inductive result (A : Type) :=
  | Answer (a : A)
  | Fault (e : exn).
Arguments Answer {A} a.
Arguments Fault {A} e.

Inductive outcome (A : Type) :=
  | Ok (a : A)
  | Raise (e : exn)
  | Diverge.
Arguments Ok {A} a.
Arguments Raise {A} e.
Arguments Diverge {A}.

Definition of_result {A} (r : result A) : outcome A :=
  match r with Answer a => Ok a | Fault e => Raise e end.

(** State-and-exception monad: the state reached when an exception is
    raised is kept, as the mutations done before a Python [raise] are. *)
Definition M (S A : Type) : Type := S → outcome A * S.

#[global] Instance M_ret {S} : MRet (M S) := λ A a s, (Ok a, s).

#[global] Instance M_bind {S} : MBind (M S) := λ A B k m s,
  match m s with
  | (Ok a, s') => k a s'
  | (Raise e, s') => (Raise e, s')
  | (Diverge, s') => (Diverge, s')
  end.

Definition raise {S A} (e : exn) : M S A := λ s, (Raise e, s).

Definition diverge {S A} : M S A := λ s, (Diverge, s).

Definition lift_outcome {S A} (o : outcome A) : M S A := λ s, (o, s).

(** [try: body except Exception as error: handler error]. *)
Definition try_except {S A} (body : M S A) (handler : exn → M S A) : M S A :=
  λ s, match body s with
       | (Raise e, s') => handler e s'
       | r => r
       end.

(** Reading and writing the state, for the local variables of a loop. *)
Definition get_state {S} : M S S := λ s, (Ok s, s).
Definition put_state {S} (s : S) : M S unit := λ _, (Ok tt, s).

(** ** Text *)

(** [str.lower()], on the ASCII letters: bytes outside [A-Z] are kept. *)
Definition lower_ascii (c : ascii) : ascii :=
  let n := nat_of_ascii c in
  if (65 <=? n)%nat && (n <=? 90)%nat then ascii_of_nat (n + 32) else c.

Fixpoint lower (s : string) : string :=
  match s with
  | EmptyString => EmptyString
  | String c s' => String (lower_ascii c) (lower s')
  end.

Fixpoint startswith (p s : string) : bool :=
  match p, s with
  | EmptyString, _ => true
  | String _ _, EmptyString => false
  | String a p', String b s' => bool_decide (a = b) && startswith p' s'
  end.

(** [k in s] on two strings. *)
Fixpoint contains (k s : string) : bool :=
  match s with
  | EmptyString => startswith k s
  | String _ s' => startswith k s || contains k s'
  end.

(** [sep.join(parts)]. *)
Fixpoint join (sep : string) (parts : list string) : string :=
  match parts with
  | [] => ""
  | [p] => p
  | p :: rest => p +:+ sep +:+ join sep rest
  end.

(** ** Loops *)

(** [for x in l: body x]. *)
Fixpoint for_each {S A} (l : list A) (body : A → M S unit) : M S unit :=
  match l with
  | [] => mret tt
  | x :: rest => body x ;; for_each rest body
  end.

(** How one turn of a [while True] loop ends. *)
Inductive control (T : Type) :=
  | Break
  | Continue (t : T).
Arguments Break {T}.
Arguments Continue {T} t.

(** ** The remote store *)

Record list_request := {
  q : string;
  fields : string;
  pageToken : option string;
  pageSize : option nat
}.

(** The two keys of a listing response the code reads:
    [response.get('files', [])] and [response.get('nextPageToken')]. *)
Record list_response := {
  files : list dict;
  nextPageToken : option string
}.

Inductive call :=
  | CGet (fileId : string) (fields : string)
  | CList (request : list_request)
  | CExport (fileId : string) (mimeType : string).

(** The client of the remote store, over its state [W]:
    [files().get(...).execute()], [files().list(...).execute()], and an
    export downloaded and decoded to text. *)
Record drive (W : Type) := {
  files_get : string → string → W → result dict * W;
  files_list : list_request → W → result list_response * W;
  files_export_media : string → string → W → result string * W
}.
Arguments files_get {W} _ _ _ _.
Arguments files_list {W} _ _ _.
Arguments files_export_media {W} _ _ _ _.

(** The state a run acts on: the remote store and the requests sent so far. *)
Record world (W : Type) := {
  remote : W;
  calls : list call
}.
Arguments remote {W} _.
Arguments calls {W} _.

(** The parts of [datetime] the code uses, over a type [D] of dates. *)
Record datelib (W D : Type) := {
  strptime : string → string → option D;
  strftime : D → string → string;
  minus_days : D → nat → D;
  now : W → D
}.
Arguments strptime {W D} _ _ _.
Arguments strftime {W D} _ _ _.
Arguments minus_days {W D} _ _ _.
Arguments now {W D} _ _.

Section Requests.
Context {W : Type} (service : drive W).

Definition request_get (fileId flds : string) : M (world W) dict := λ w,
  let '(r, rem) := files_get service fileId flds (remote w) in
  (of_result r, {| remote := rem; calls := calls w ++ [CGet fileId flds] |}).

Definition request_list (req : list_request) : M (world W) list_response := λ w,
  let '(r, rem) := files_list service req (remote w) in
  (of_result r, {| remote := rem; calls := calls w ++ [CList req] |}).

Definition request_export (fileId mime : string) : M (world W) string := λ w,
  let '(r, rem) := files_export_media service fileId mime (remote w) in
  (of_result r, {| remote := rem; calls := calls w ++ [CExport fileId mime] |}).

(** A computation on the world, run from inside a loop that also holds
    a local variable of type [L]. *)
Definition with_local {L A} (m : M (world W) A) : M (L * world W) A := λ s,
  let '(o, w) := m s.2 in (o, (s.1, w)).

(** A loop over a local variable, run from its initial value; the
    final value of the variable is what the function returns. *)
Definition run_local {L} (init : L) (m : M (L * world W) unit) : M (world W) L := λ w,
  match m (init, w) with
  | (Ok _, s) => (Ok s.1, s.2)
  | (Raise e, s) => (Raise e, s.2)
  | (Diverge, s) => (Diverge, s.2)
  end.

(** [acc.append(x)] / [acc.extend(xs)] on the local list. *)
Definition extend {A} (xs : list A) : M (list A * world W) unit := λ s,
  (Ok tt, (s.1 ++ xs, s.2)).

End Requests.

(** ** drive_flie_list.py *)

Module DriveFileList.

(** The table of [build_file_type_query]. *)
Definition mime_type_map : gmap string string := list_to_map [
  ("pdf", "mimeType='application/pdf'");
  ("doc", "mimeType='application/msword'");
  ("docx", "mimeType='application/vnd.openxmlformats-officedocument.wordprocessingml.document'");
  ("txt", "mimeType='text/plain'");
  ("rtf", "mimeType='application/rtf'");
  ("xls", "mimeType='application/vnd.ms-excel'");
  ("xlsx", "mimeType='application/vnd.openxmlformats-officedocument.spreadsheetml.sheet'");
  ("csv", "mimeType='text/csv'");
  ("ppt", "mimeType='application/vnd.ms-powerpoint'");
  ("pptx", "mimeType='application/vnd.openxmlformats-officedocument.presentationml.presentation'");
  ("gdoc", "mimeType='application/vnd.google-apps.document'");
  ("gsheet", "mimeType='application/vnd.google-apps.spreadsheet'");
  ("gslide", "mimeType='application/vnd.google-apps.presentation'");
  ("gform", "mimeType='application/vnd.google-apps.form'");
  ("gdrawing", "mimeType='application/vnd.google-apps.drawing'");
  ("image", "mimeType contains 'image/'");
  ("jpg", "mimeType='image/jpeg'");
  ("jpeg", "mimeType='image/jpeg'");
  ("png", "mimeType='image/png'");
  ("gif", "mimeType='image/gif'");
  ("bmp", "mimeType='image/bmp'");
  ("svg", "mimeType='image/svg+xml'");
  ("webp", "mimeType='image/webp'");
  ("video", "mimeType contains 'video/'");
  ("mp4", "mimeType='video/mp4'");
  ("avi", "mimeType='video/x-msvideo'");
  ("mov", "mimeType='video/quicktime'");
  ("wmv", "mimeType='video/x-ms-wmv'");
  ("audio", "mimeType contains 'audio/'");
  ("mp3", "mimeType='audio/mpeg'");
  ("wav", "mimeType='audio/wav'");
  ("zip", "mimeType='application/zip'");
  ("rar", "mimeType='application/x-rar-compressed'");
  ("7z", "mimeType='application/x-7z-compressed'");
  ("tar", "mimeType='application/x-tar'");
  ("gz", "mimeType='application/gzip'");
  ("json", "mimeType='application/json'");
  ("xml", "mimeType='application/xml'");
  ("html", "mimeType='text/html'");
  ("css", "mimeType='text/css'");
  ("js", "mimeType='application/javascript'");
  ("py", "mimeType='text/x-python'")
].

(** [build_file_type_query]: one clause per requested type, joined by
    [' or ']; [None] for an empty request. *)
Definition build_file_type_query (file_types : list string) : option string :=
  let queries :=
    (λ file_type,
       let file_type_lower := lower file_type in
       match mime_type_map !! file_type_lower with
       | Some q => q
       | None => "name contains '." +:+ file_type_lower +:+ "'"
       end) <$> file_types in
  if truthy_list queries then Some (join " or " queries) else None.

(** [file.get('name', '').lower()]: a record without a name counts as
    [''], a name that is not a string has no [lower]. *)
Definition filename_lower (file : dict) : outcome string :=
  match file !! "name" with
  | None => Ok (lower "")
  | Some (VStr s) => Ok (lower s)
  | Some _ => Raise AttributeError
  end.

(** The inner [for keyword in exclude_keywords] loop with its [break]. *)
Definition should_exclude (filename : string) (exclude_keywords : list string) : bool :=
  existsb (λ keyword, contains (lower keyword) filename) exclude_keywords.

Fixpoint filter_loop (files : list dict) (exclude_keywords : list string)
    (filtered_files : list dict) : outcome (list dict) :=
  match files with
  | [] => Ok filtered_files
  | file :: rest =>
      match filename_lower file with
      | Ok filename =>
          if should_exclude filename exclude_keywords
          then filter_loop rest exclude_keywords filtered_files
          else filter_loop rest exclude_keywords (filtered_files ++ [file])
      | Raise e => Raise e
      | Diverge => Diverge
      end
  end.

Definition filter_by_exclude_keywords (files : list dict)
    (exclude_keywords : option (list string)) : outcome (list dict) :=
  match exclude_keywords with
  | Some (k :: ks) => filter_loop files (k :: ks) []
  | _ => Ok files
  end.

(** Lines 381-387 of [get_files_in_date_range]: the [seen] set and the
    [unique_results] list.  [file['id']] raises [KeyError] on a record
    without identifier, and an unhashable identifier cannot be looked up
    in [seen]. *)
Fixpoint remove_duplicates_loop (all_results : list dict) (seen : gset value)
    (unique_results : list dict) : outcome (list dict) :=
  match all_results with
  | [] => Ok unique_results
  | file :: rest =>
      match file !! "id" with
      | None => Raise KeyError
      | Some i =>
          if hashable i then
            if decide (i ∉ seen)
            then remove_duplicates_loop rest ({[i]} ∪ seen) (unique_results ++ [file])
            else remove_duplicates_loop rest seen unique_results
          else Raise TypeError
      end
  end.

Definition remove_duplicates (all_results : list dict) : outcome (list dict) :=
  remove_duplicates_loop all_results ∅ [].


(** [folder['id']], used as a folder identifier in the next query.
    Identifiers are strings in every listing of the remote store; the
    model stops with [TypeError] on anything else. *)
Definition get_id (file : dict) : outcome string :=
  match file !! "id" with
  | None => Raise KeyError
  | Some (VStr s) => Ok s
  | Some _ => Raise TypeError
  end.

(** The filter request: the parameters of [get_files_in_date_range]. *)
Inductive date_arg (D : Type) :=
  | DateStr (s : string)
  | DateObj (d : D)
  | DateNone.
Arguments DateStr {D} s.
Arguments DateObj {D} d.
Arguments DateNone {D}.

Record filter_request (D : Type) := {
  folder_id : option string;
  start_date : date_arg D;
  end_date : date_arg D;
  search_type : string;
  recursive : bool;
  debug : bool;
  file_types : option (list string);
  filename_keywords : option (list string);
  exclude_keywords : option (list string)
}.
Arguments folder_id {D} _.
Arguments start_date {D} _.
Arguments end_date {D} _.
Arguments search_type {D} _.
Arguments recursive {D} _.
Arguments debug {D} _.
Arguments file_types {D} _.
Arguments filename_keywords {D} _.
Arguments exclude_keywords {D} _.

Definition folder_mime : string := "application/vnd.google-apps.folder".

Definition verify_fields : string := "id, name, mimeType, owners, shared, driveId".

Definition subfolder_fields : string := "nextPageToken, files(id, name)".

Definition search_fields : string :=
  "nextPageToken, files(id, name, mimeType, createdTime, modifiedTime, size, webViewLink, owners, parents, driveId)".

Definition subfolder_query (folder_id : string) : string :=
  "'" +:+ folder_id +:+ "' in parents and mimeType='application/vnd.google-apps.folder' and trashed=false".

Definition subfolder_request (folder_id : string) (page_token : option string) : list_request :=
  {| q := subfolder_query folder_id; fields := subfolder_fields;
     pageToken := page_token; pageSize := None |}.

Definition search_request (query : string) (page_token : option string) : list_request :=
  {| q := query; fields := search_fields;
     pageToken := page_token; pageSize := Some 1000%nat |}.

Section Discovery.
Context {W D : Type} (service : drive W) (dt : datelib W D).

(** [verify_folder_access]: the metadata of the folder, or [None] when
    the request raises.  A record that is not a folder only gets a
    warning line and is returned all the same. *)
Definition verify_folder_access (folder_id : string) : M (world W) (option dict) :=
  try_except
    (folder ← request_get service folder_id verify_fields;
     mret (Some folder))
    (λ error, mret None).

(** The body of [for folder in folders]: the folder is appended to the
    local [subfolders], then its own subfolders are. *)
Definition descend (recurse : string → M (world W) (list string)) (folder : dict)
    : M (list string * world W) unit :=
  fid ← lift_outcome (get_id folder);
  extend [fid];;
  below ← with_local (recurse fid);
  extend below.

(** One turn of the [while True] of [get_all_subfolders]: a page is
    requested, every folder on it is appended and searched in turn,
    then the token of the page is read. *)
Definition subfolders_turn (recurse : string → M (world W) (list string))
    (folder_id : string) (page_token : option string)
    : M (list string * world W) (control (option string)) :=
  try_except
    (response ← with_local (request_list service (subfolder_request folder_id page_token));
     let folders := files response in
     for_each folders (descend recurse);;
     let page_token := nextPageToken response in
     if negb (truthy_opt_str page_token) then mret Break
     else mret (Continue page_token))
    (λ error, mret Break).

Fixpoint subfolders_while (recurse : string → M (world W) (list string))
    (fuel : nat) (folder_id : string) (page_token : option string)
    : M (list string * world W) unit :=
  match fuel with
  | O => diverge
  | S fuel' =>
      ctl ← subfolders_turn recurse folder_id page_token;
      match ctl with
      | Break => mret tt
      | Continue page_token' => subfolders_while recurse fuel' folder_id page_token'
      end
  end.

Fixpoint get_all_subfolders (fuel : nat) (folder_id : string) : M (world W) (list string) :=
  match fuel with
  | O => diverge
  | S fuel' =>
      run_local [] (subfolders_while (get_all_subfolders fuel') fuel' folder_id None)
  end.

(** One turn of the [while True] of [execute_search]; [results] is the
    local. *)
Definition search_turn (query : string) (page_token : option string)
    : M (list dict * world W) (control (option string)) :=
  response ← with_local (request_list service (search_request query page_token));
  extend (files response);;
  let page_token := nextPageToken response in
  if negb (truthy_opt_str page_token) then mret Break
  else mret (Continue page_token).

Fixpoint search_while (fuel : nat) (query : string) (page_token : option string)
    : M (list dict * world W) unit :=
  match fuel with
  | O => diverge
  | S fuel' =>
      ctl ← search_turn query page_token;
      match ctl with
      | Break => mret tt
      | Continue page_token' => search_while fuel' query page_token'
      end
  end.

(** [execute_search]: the whole loop is inside one [try]; the handler
    prints and falls through to [return results]. *)
Definition execute_search (fuel : nat) (query : string) (debug : bool)
    : M (world W) (list dict) :=
  run_local []
    (try_except (search_while fuel query None) (λ error, mret tt)).

End Discovery.

Section DateRange.
Context {W D : Type} (service : drive W) (dt : datelib W D).

(** [datetime.strptime(x, '%Y-%m-%d')] when [x] is a string. *)
Definition parse_date (x : date_arg D) : outcome (option D) :=
  match x with
  | DateStr s =>
      match strptime dt s "%Y-%m-%d" with
      | Some d => Ok (Some d)
      | None => Raise ValueError
      end
  | DateObj d => Ok (Some d)
  | DateNone => Ok None
  end.

(** The clauses added for [file_types] and [filename_keywords]; the
    source has this block twice, once per branch. *)
Definition type_and_name_parts (file_types filename_keywords : option (list string))
    : list string :=
  (if truthy_opt_list file_types then
     let type_queries := build_file_type_query (default [] file_types) in
     if truthy_opt_str type_queries
     then ["(" +:+ default "" type_queries +:+ ")"] else []
   else [])
  ++
  (if truthy_opt_list filename_keywords then
     let name_queries :=
       (λ keyword, "name contains '" +:+ keyword +:+ "'") <$> default [] filename_keywords in
     ["(" +:+ join " or " name_queries +:+ ")"]
   else []).

Definition date_parts (time_field start_date_str end_date_str : string) : list string :=
  [ time_field +:+ " >= '" +:+ start_date_str +:+ "'";
    time_field +:+ " <= '" +:+ end_date_str +:+ "'";
    "trashed = false" ].

Definition folder_search_query (time_field start_date_str end_date_str fid : string)
    (file_types filename_keywords : option (list string)) : string :=
  join " and "
    (date_parts time_field start_date_str end_date_str
     ++ ["'" +:+ fid +:+ "' in parents"]
     ++ type_and_name_parts file_types filename_keywords).

Definition drive_search_query (time_field start_date_str end_date_str : string)
    (file_types filename_keywords : option (list string)) : string :=
  join " and "
    (date_parts time_field start_date_str end_date_str
     ++ type_and_name_parts file_types filename_keywords).

Definition time_field_of (search_type : string) : string :=
  if decide (search_type = "modified") then "modifiedTime" else "createdTime".

(** Lines 267-379 of [get_files_in_date_range]: everything up to the
    merged [all_results].  [None] stands for the early [return []] of
    a folder that could not be verified; a [folder_id] that is [None]
    or [''] takes the whole-drive branch. *)
Definition gather_results (fuel : nat) (req : filter_request D)
    : M (world W) (option (list dict)) :=
  start_date ← lift_outcome (parse_date (start_date req));
  end_date ← lift_outcome (parse_date (end_date req));
  w ← get_state;
  let end_date := default (now dt (remote w)) end_date in
  let start_date := default (minus_days dt end_date 7) start_date in
  let start_date_str := strftime dt start_date "%Y-%m-%dT00:00:00" in
  let end_date_str := strftime dt end_date "%Y-%m-%dT23:59:59" in
  let time_field := time_field_of (search_type req) in
  match (if truthy_opt_str (folder_id req) then folder_id req else None) with
  | Some fid0 =>
      folder_info ← verify_folder_access service fid0;
      if negb (truthy_opt_dict folder_info) then mret None
      else
        folders_to_search ←
          (if recursive req then
             subfolders ← get_all_subfolders service fuel fid0;
             mret ([fid0] ++ subfolders)
           else mret [fid0]);
        all_results ← run_local []
          (for_each folders_to_search (λ fid,
             let query := folder_search_query time_field start_date_str end_date_str fid
                            (file_types req) (filename_keywords req) in
             results ← with_local (execute_search service fuel query (debug req));
             extend results));
        mret (Some all_results)
  | None =>
      all_results ← execute_search service fuel
        (drive_search_query time_field start_date_str end_date_str
           (file_types req) (filename_keywords req)) (debug req);
      mret (Some all_results)
  end.

Definition get_files_in_date_range (fuel : nat) (req : filter_request D)
    : M (world W) (list dict) :=
  gathered ← gather_results fuel req;
  match gathered with
  | None => mret []
  | Some all_results =>
      unique_results ← lift_outcome (remove_duplicates all_results);
      if truthy_opt_list (exclude_keywords req)
      then lift_outcome (filter_by_exclude_keywords unique_results (exclude_keywords req))
      else mret unique_results
  end.

End DateRange.

End DriveFileList.

(** ** google_drive_reader.py *)

Module GoogleDriveReader.

Definition metadata_fields : string :=
  "id, name, mimeType, createdTime, modifiedTime, owners, driveId".

Definition doc_mime : string := "application/vnd.google-apps.document".

Definition sheet_mime : string := "application/vnd.google-apps.spreadsheet".

(** [try: body except HttpError as error: return None]; any other
    exception goes on to the caller. *)
Definition except_http {S A} (body : M S (option A)) : M S (option A) :=
  try_except body (λ error,
    if decide (error = HttpError) then mret None else raise error).

Section Reader.
Context {W : Type} (service : drive W).

Definition get_file_metadata (file_id : string) : M (world W) (option dict) :=
  except_http
    (file ← request_get service file_id metadata_fields;
     mret (Some file)).

Definition read_google_doc (file_id : string) : M (world W) (option string) :=
  except_http
    (content ← request_export service file_id "text/plain";
     mret (Some content)).

Definition read_google_sheet (file_id : string) : M (world W) (option string) :=
  except_http
    (content ← request_export service file_id "text/csv";
     mret (Some content)).

(** The pair (file name, content); [None] is [VNone]. *)
Definition content_value (content : option string) : value :=
  match content with Some c => VStr c | None => VNone end.

Definition read_file_content (file_id : string) : M (world W) (value * value) :=
  metadata ← get_file_metadata file_id;
  if negb (truthy_opt_dict metadata) then mret (VNone, VNone)
  else
    let metadata := default ∅ metadata in
    let file_name := default (VStr "Unknown") (metadata !! "name") in
    let mime_type := default (VStr "") (metadata !! "mimeType") in
    content ←
      (if decide (mime_type = VStr doc_mime) then read_google_doc file_id
       else if decide (mime_type = VStr sheet_mime) then read_google_sheet file_id
       else mret None);
    mret (file_name, content_value content).

(** The body of the loop of [read_multiple_files], one [try] per item;
    [results] is the local. *)
Definition read_item (file_id : string) : M (list (value * value) * world W) unit :=
  try_except
    ('(file_name, content) ← with_local (read_file_content file_id);
     extend [(file_name, content)])
    (λ e, extend [(VNone, VNone)]).

Definition read_multiple_files (file_ids : list string)
    : M (world W) (list (value * value)) :=
  run_local [] (for_each file_ids read_item).

End Reader.

(** Line 361 of [save_to_separate_csv], the name of the file written for
    one result:
    [file_name.replace(' ', '_').replace('/', '_').replace('\\', '_')]. *)
Fixpoint replace_char (old new : ascii) (s : string) : string :=
  match s with
  | EmptyString => EmptyString
  | String c s' =>
      String (if decide (c = old) then new else c) (replace_char old new s')
  end.

Definition safe_name (file_name : string) : string :=
  replace_char "\" "_" (replace_char "/" "_" (replace_char " " "_" file_name)).

End GoogleDriveReader.

(** ** collect_all.py *)

Module CollectAll.

(** The record objects of a batch live in a heap: the lists that the
    pipeline passes around hold references, and
    [collected_files[i]["content"] = ...] writes through one. *)
Definition loc := nat.

Abbreviation heap := (loc → dict).

(** [add_contents_to_files], the body of the loop at index [i]. *)
Definition add_contents_at (collected_files : list loc)
    (c_files_shared : list (value * value)) (i : nat) : M heap unit :=
  match collected_files !! i with
  | None => raise IndexError
  | Some l =>
      h ← get_state;
      match h l !! "name" with
      | None => raise KeyError
      | Some name =>
          match c_files_shared !! i with
          | None => raise IndexError
          | Some (fetched_name, fetched_content) =>
              if decide (name = fetched_name)
              then put_state (<[l := <["content" := fetched_content]> (h l)]> h)
              else mret tt
          end
      end
  end.

Definition add_contents_to_files (collected_files : list loc)
    (c_files_shared : list (value * value)) : M heap (list loc) :=
  for_each (seq 0 (length collected_files))
    (add_contents_at collected_files c_files_shared);;
  mret collected_files.

(** [file["parents"][0]]. *)
Definition first_parent (file : dict) : outcome string :=
  match file !! "parents" with
  | None => Raise KeyError
  | Some (VList (p :: _)) => Ok p
  | Some (VList []) => Raise IndexError
  | Some (VStr (String c _)) => Ok (String c EmptyString)
  | Some (VStr EmptyString) => Raise IndexError
  | Some VNone => Raise TypeError
  end.

(** The first loop of [get_idmap]: [parents_ids.insert(0, fid)]. *)
Fixpoint parents_loop (shared_files : list dict) (parents_ids : list string)
    : outcome (list string) :=
  match shared_files with
  | [] => Ok parents_ids
  | file :: rest =>
      match first_parent file with
      | Ok fid => parents_loop rest (fid :: parents_ids)
      | Raise e => Raise e
      | Diverge => Diverge
      end
  end.

Section Attribution.
Context {W : Type} (service : drive W).

(** [filename = reader.read_files(fid)[0]; idmap[fid] = filename], with
    [idmap] as the local; [read_files] on a string is
    [read_file_content]. *)
Definition resolve_name (fid : string) : M (gmap string value * world W) unit :=
  '(filename, _) ← with_local (GoogleDriveReader.read_file_content service fid);
  idmap ← get_state;
  put_state (<[fid := filename]> idmap.1, idmap.2).

(** [for fid in ids: ...]. *)
Definition names_loop (ids : list string) : M (gmap string value * world W) unit :=
  for_each ids resolve_name.

Definition get_idmap (shared_files : list dict) : M (world W) (gmap string value) :=
  parents_ids ← lift_outcome (parents_loop shared_files []);
  let parents_tuple := parents_ids in
  run_local ∅ (names_loop parents_tuple).

Definition map_ids_to_names (distinct_ids : list string) : M (world W) (gmap string value) :=
  run_local ∅ (names_loop distinct_ids).

End Attribution.

(** The persisted collection [client.shared.recordings]: its documents. *)
Abbreviation collection := (list dict).

(** The filter [{"parents.0": fid}]. *)
Definition parents_0_is (fid : string) (doc : dict) : bool :=
  match doc !! "parents" with
  | Some (VList (p :: _)) => bool_decide (p = fid)
  | _ => false
  end.

(** [update_many(filter, {"$set": {"created_by": v}})]. *)
Definition update_many (filter : dict → bool) (created_by : value) : M collection unit :=
  λ docs, (Ok tt, (λ doc, if filter doc then <["created_by" := created_by]> doc else doc) <$> docs).

Definition update_created_by_in_mongo (distinct_ids : list string)
    (idmap : gmap string value) : M collection unit :=
  for_each distinct_ids (λ fid,
    match idmap !! fid with
    | None => raise KeyError
    | Some name => update_many (parents_0_is fid) name
    end).

(** [add_created_by_to_files], the body of the loop at index [i]:
    [fid = collected_files[i]["parents"][0]], then
    [collected_files[i]["created_by"] = idmap[fid]]. *)
Definition add_created_by_at (collected_files : list loc)
    (idmap : gmap string value) (i : nat) : M heap unit :=
  match collected_files !! i with
  | None => raise IndexError
  | Some l =>
      h ← get_state;
      fid ← lift_outcome (first_parent (h l));
      match idmap !! fid with
      | None => raise KeyError
      | Some name => put_state (<[l := <["created_by" := name]> (h l)]> h)
      end
  end.

Definition add_created_by_to_files (collected_files : list loc)
    (idmap : gmap string value) : M heap (list loc) :=
  for_each (seq 0 (length collected_files))
    (add_created_by_at collected_files idmap);;
  mret collected_files.

(** [[file["id"] for file in collected_files]]. *)
Fixpoint file_ids_of (collected_files : list dict) : outcome (list string) :=
  match collected_files with
  | [] => Ok []
  | file :: rest =>
      match DriveFileList.get_id file with
      | Ok fid =>
          match file_ids_of rest with
          | Ok fids => Ok (fid :: fids)
          | Raise e => Raise e
          | Diverge => Diverge
          end
      | Raise e => Raise e
      | Diverge => Diverge
      end
  end.

Section Collecting.
Context {W D : Type} (service : drive W) (dt : datelib W D).

(** [collect_files]: the discovery of the Gemini notes of one folder. *)
Definition collect_files (fuel : nat) (shared_folder_id : option string)
    (s_date e_date : DriveFileList.date_arg D) : M (world W) (list dict) :=
  DriveFileList.get_files_in_date_range service dt fuel
    {| DriveFileList.folder_id := shared_folder_id;
       DriveFileList.start_date := s_date;
       DriveFileList.end_date := e_date;
       DriveFileList.search_type := "created";
       DriveFileList.recursive := true;
       DriveFileList.debug := true;
       DriveFileList.file_types := Some ["gdoc"];
       DriveFileList.filename_keywords := Some ["gemini"];
       DriveFileList.exclude_keywords := None |}.

(** [collect_contents]: the identifiers of the records, then
    [reader.read_files] on the list, which is [read_multiple_files]. *)
Definition collect_contents (collected_files : list dict)
    : M (world W) (list (value * value)) :=
  FILE_IDS_SHARED ← lift_outcome (file_ids_of collected_files);
  GoogleDriveReader.read_multiple_files service FILE_IDS_SHARED.

End Collecting.

End CollectAll.

(** ** Test doubles *)

Module Fixtures.

(** A remote store without state: every request is answered from a table. *)
Definition static_drive (gets : string → result dict)
    (lists : list_request → result list_response)
    (exports : string → string → result string) : drive unit :=
  {| files_get := λ fileId _ w, (gets fileId, w);
     files_list := λ req w, (lists req, w);
     files_export_media := λ fileId mime w, (exports fileId mime, w) |}.

Definition start : world unit := {| remote := tt; calls := [] |}.

Definition is_digit (c : ascii) : bool :=
  let n := nat_of_ascii c in (48 <=? n)%nat && (n <=? 57)%nat.

(** Dates kept as their ['YYYY-MM-DD'] text. *)
Definition iso_shape (s : string) : bool :=
  match String.list_ascii_of_string s with
  | [y1; y2; y3; y4; d1; m1; m2; d2; a1; a2] =>
      forallb is_digit [y1; y2; y3; y4; m1; m2; a1; a2]
      && bool_decide (d1 = "-"%char) && bool_decide (d2 = "-"%char)
  | _ => false
  end.

Definition iso_dates : datelib unit string :=
  {| strptime := λ s _, if iso_shape s then Some s else None;
     strftime := λ d fmt, d +:+ String.substring 8 (String.length fmt - 8) fmt;
     minus_days := λ d _, d;
     now := λ _, "2025-11-20" |}.

Definition record (id name : string) : dict :=
  <["id" := VStr id]> (<["name" := VStr name]> ∅).

Definition in_folder (parent : string) (r : dict) : dict :=
  <["parents" := VList [parent]]> r.

(** A root folder [F] with two subfolders [F1] and [F2]; the record [X1]
    is listed under both. *)
Definition folder_record (id name : string) : dict :=
  <["mimeType" := VStr DriveFileList.folder_mime]> (record id name).

Definition tree_gets (fileId : string) : result dict :=
  if decide (fileId = "F") then Answer (folder_record "F" "root")
  else Fault HttpError.

Definition page (fs : list dict) (token : option string) : result list_response :=
  Answer {| files := fs; nextPageToken := token |}.

Definition tree_lists (req : list_request) : result list_response :=
  if contains "mimeType='application/vnd.google-apps.folder'" (q req) then
    if contains "'F' in parents" (q req)
    then page [folder_record "F1" "one"; folder_record "F2" "two"] None
    else page [] None
  else if contains "'F1' in parents" (q req)
    then page [record "X1" "Minutes.gdoc"; record "A" "Draft Report.gdoc"] None
  else if contains "'F2' in parents" (q req)
    then page [record "X1" "Minutes.gdoc"; record "B" "Report.gdoc"] None
  else page [] None.

Definition tree_drive : drive unit :=
  static_drive tree_gets tree_lists (λ _ _, Fault HttpError).

Definition tree_request : DriveFileList.filter_request string :=
  {| DriveFileList.folder_id := Some "F";
     DriveFileList.start_date := DriveFileList.DateStr "2025-11-01";
     DriveFileList.end_date := DriveFileList.DateStr "2025-11-15";
     DriveFileList.search_type := "created";
     DriveFileList.recursive := true;
     DriveFileList.debug := false;
     DriveFileList.file_types := Some ["gdoc"];
     DriveFileList.filename_keywords := None;
     DriveFileList.exclude_keywords := Some ["draft"] |}.

Definition tree_found : list dict :=
  [record "X1" "Minutes.gdoc"; record "B" "Report.gdoc"].

(** A query answered in two pages; the request for the third page raises. *)
Definition paged_lists (req : list_request) : result list_response :=
  match pageToken req with
  | None => page [record "a" "first.gdoc"] (Some "t1")
  | Some t =>
      if decide (t = "t1") then page [record "b" "second.gdoc"] (Some "t2")
      else Fault HttpError
  end.

Definition paged_drive : drive unit :=
  static_drive (λ _, Fault HttpError) paged_lists (λ _ _, Fault HttpError).

Definition paged_log (query : string) : list call :=
  [CList (DriveFileList.search_request query None);
   CList (DriveFileList.search_request query (Some "t1"));
   CList (DriveFileList.search_request query (Some "t2"))].

(** A folder [R] whose listing comes in two pages, the folder [A] on the
    first and the folder [B] on the second; [A] and [B] are empty. *)
Definition two_page_lists (req : list_request) : result list_response :=
  if decide (q req = DriveFileList.subfolder_query "R") then
    match pageToken req with
    | None => page [folder_record "A" "a"] (Some "p2")
    | Some _ => page [folder_record "B" "b"] None
    end
  else page [] None.

Definition two_page_drive : drive unit :=
  static_drive (λ _, Fault HttpError) two_page_lists (λ _ _, Fault HttpError).

Definition two_page_log : list call :=
  [CList (DriveFileList.subfolder_request "R" None);
   CList (DriveFileList.subfolder_request "A" None);
   CList (DriveFileList.subfolder_request "R" (Some "p2"));
   CList (DriveFileList.subfolder_request "B" None)].

(** The request of the folder tree with a search type that is neither
    ['created'] nor ['modified']. *)
Definition weekly_request : DriveFileList.filter_request string :=
  {| DriveFileList.folder_id := Some "F";
     DriveFileList.start_date := DriveFileList.DateStr "2025-11-01";
     DriveFileList.end_date := DriveFileList.DateStr "2025-11-15";
     DriveFileList.search_type := "weekly";
     DriveFileList.recursive := true;
     DriveFileList.debug := false;
     DriveFileList.file_types := Some ["gdoc"];
     DriveFileList.filename_keywords := None;
     DriveFileList.exclude_keywords := Some ["draft"] |}.

(** The same request with a start date that does not parse. *)
Definition misdated_request : DriveFileList.filter_request string :=
  {| DriveFileList.folder_id := Some "F";
     DriveFileList.start_date := DriveFileList.DateStr "11/01/2025";
     DriveFileList.end_date := DriveFileList.DateStr "2025-11-15";
     DriveFileList.search_type := "created";
     DriveFileList.recursive := true;
     DriveFileList.debug := false;
     DriveFileList.file_types := Some ["gdoc"];
     DriveFileList.filename_keywords := None;
     DriveFileList.exclude_keywords := Some ["draft"] |}.

(** A root identifier that names a PDF file, not a folder; the search
    scoped to it is answered with one record. *)
Definition pdf_root : dict :=
  <["mimeType" := VStr "application/pdf"]> (record "F" "scan.pdf").

Definition pdf_drive : drive unit :=
  static_drive (λ _, Answer pdf_root)
    (λ _, page [record "X" "notes.gdoc"] None)
    (λ _ _, Fault HttpError).

Definition flat_request : DriveFileList.filter_request string :=
  {| DriveFileList.folder_id := Some "F";
     DriveFileList.start_date := DriveFileList.DateStr "2025-11-01";
     DriveFileList.end_date := DriveFileList.DateStr "2025-11-15";
     DriveFileList.search_type := "created";
     DriveFileList.recursive := false;
     DriveFileList.debug := false;
     DriveFileList.file_types := None;
     DriveFileList.filename_keywords := None;
     DriveFileList.exclude_keywords := None |}.



(** A store for the reader: a document, a sheet, a PDF, a document
    whose export is refused, an identifier that is unknown, one whose
    metadata request breaks, and the folder [P] named after its owner. *)
Definition named (name mime : string) : dict :=
  <["name" := VStr name]> (<["mimeType" := VStr mime]> ∅).

Definition reader_gets (fileId : string) : result dict :=
  if decide (fileId = "doc") then Answer (named "Plan" GoogleDriveReader.doc_mime)
  else if decide (fileId = "sheet") then Answer (named "Budget" GoogleDriveReader.sheet_mime)
  else if decide (fileId = "pdf") then Answer (named "scan.pdf" "application/pdf")
  else if decide (fileId = "locked") then Answer (named "Secret" GoogleDriveReader.doc_mime)
  else if decide (fileId = "P") then Answer (named "Irene" DriveFileList.folder_mime)
  else if decide (fileId = "broken") then Fault OtherError
  else Fault HttpError.

Definition reader_exports (fileId mime : string) : result string :=
  if decide (fileId = "doc") then Answer "hello"
  else if decide (fileId = "sheet") then Answer "a,b"
  else Fault HttpError.

Definition reader_drive : drive unit :=
  static_drive reader_gets (λ _, Fault HttpError) reader_exports.

(** Two records of one batch that share the parent folder [P]. *)
Definition shared_batch : list dict :=
  [in_folder "P" (record "f1" "Monday.gdoc"); in_folder "P" (record "f2" "Tuesday.gdoc")].

(** Two records of a batch on the heap, and what was fetched for them:
    the content of the first, nothing for the second. *)
Definition batch_heap : CollectAll.loc → dict :=
  λ l, match l with
       | 0%nat => record "f1" "Monday.gdoc"
       | 1%nat => record "f2" "Tuesday.gdoc"
       | _ => ∅
       end.

Definition batch_fetched : list (value * value) :=
  [(VStr "Monday.gdoc", VStr "minutes of Monday"); (VNone, VNone)].

(** A collection of three documents, two of them under the folder [P],
    and the labels of the folders [P] and [Q]. *)
Definition recordings : list dict :=
  [in_folder "P" (record "f1" "Monday.gdoc");
   in_folder "Q" (record "f2" "Tuesday.gdoc");
   in_folder "P" (record "f3" "Friday.gdoc")].

Definition owner_labels : gmap string value :=
  <["P" := VStr "Irene"]> (<["Q" := VStr "Jaden"]> ∅).

Definition labelled_recordings : list dict :=
  [<["created_by" := VStr "Irene"]> (in_folder "P" (record "f1" "Monday.gdoc"));
   <["created_by" := VStr "Jaden"]> (in_folder "Q" (record "f2" "Tuesday.gdoc"));
   <["created_by" := VStr "Irene"]> (in_folder "P" (record "f3" "Friday.gdoc"))].

(** A request without folder. *)
Definition unscoped_request : DriveFileList.filter_request string :=
  {| DriveFileList.folder_id := None;
     DriveFileList.start_date := DriveFileList.DateStr "2025-11-01";
     DriveFileList.end_date := DriveFileList.DateStr "2025-11-15";
     DriveFileList.search_type := "modified";
     DriveFileList.recursive := true;
     DriveFileList.debug := false;
     DriveFileList.file_types := None;
     DriveFileList.filename_keywords := Some ["gemini"];
     DriveFileList.exclude_keywords := None |}.

(** The collection again, as a batch on the heap. *)
Definition recordings_heap : CollectAll.loc → dict :=
  λ l, default ∅ (recordings !! l).

(** The labels without the one of the folder [Q]. *)
Definition partial_labels : gmap string value :=
  <["P" := VStr "Irene"]> ∅.


Definition nameless_id_batch : list dict :=
  [record "doc" "Plan"; <["name" := VStr "scan.pdf"]> ∅].

(** The records found under both subfolders of the tree, in the order
    of the search. *)
Definition tree_listed : list dict :=
  [record "X1" "Minutes.gdoc"; record "A" "Draft Report.gdoc";
   record "X1" "Minutes.gdoc"; record "B" "Report.gdoc"].

End Fixtures.

(** * The vocabulary of the properties *)

Import DriveFileList GoogleDriveReader CollectAll.

(** ** Text and records *)

(** [k] occurs in [s]. *)
Definition substring_of (k s : string) : Prop :=
  ∃ pre post, s = pre +:+ k +:+ post.

(** The first record of [l] that carries the identifier [i]. *)
Definition first_with_id (l : list dict) (i : value) : option dict :=
  List.find (λ r, bool_decide (r !! "id" = Some i)) l.
Arguments first_with_id : simpl never.

(** [file.get('name', '')] of a record whose name, if any, is a string. *)
Definition record_name (r : dict) : string :=
  match r !! "name" with
  | Some (VStr s) => s
  | _ => ""
  end.

(** [k] occurs in the name of [r], letter case apart. *)
Definition name_matches (k : string) (r : dict) : Prop :=
  substring_of (lower k) (lower (record_name r)).

Definition excluded (ks : list string) (r : dict) : bool :=
  should_exclude (lower (record_name r)) ks.

(** The records that reach the exclusion filter: the merged results
    without their duplicates, and nothing after the early return. *)
Definition candidates_of (gathered : option (list dict)) : outcome (list dict) :=
  match gathered with
  | None => Ok []
  | Some all_results => remove_duplicates all_results
  end.

(** ** Runs and logs *)

(** [m] keeps what is already in the log, read off the state by [π]. *)
Definition grows {S A} (π : S → list call) (m : M S A) : Prop :=
  ∀ s, π s `prefix_of` π (m s).2.

(** The log seen from inside a loop with a local variable. *)
Definition local_calls {W L} (s : L * world W) : list call := calls s.2.

(** A computation that always comes to an end. *)
Definition total {S A} (m : M S A) : Prop := ∀ s, (m s).1 ≠ Diverge.

(** The metadata lookups of a log, in order. *)
Definition lookups (log : list call) : list string :=
  omap (λ c, match c with CGet fileId _ => Some fileId | _ => None end) log.

(** The claim C5 for one folder and one of its children: every request
    for a page of the listing of [parent] is sent before the listing of
    [child] is first requested. *)
Definition drained_before_descent (parent child : string) (log : list call) : Prop :=
  ∀ (i j : nat) tok,
    log !! i = Some (CList (subfolder_request parent tok)) →
    log !! j = Some (CList (subfolder_request child None)) →
    (i < j)%nat.

(** The request [req] with another search type. *)
Definition with_search_type {D} (st : string) (req : filter_request D) : filter_request D :=
  {| folder_id := folder_id req;
     start_date := start_date req;
     end_date := end_date req;
     search_type := st;
     recursive := recursive req;
     debug := debug req;
     file_types := file_types req;
     filename_keywords := filename_keywords req;
     exclude_keywords := exclude_keywords req |}.

(** The claim C6 on one run: it ends in an exception and no request has
    been sent. *)
Definition rejected_before_any_request {W A} (run : outcome A * world W) (w : world W) : Prop :=
  (∃ e, run.1 = Raise e) ∧ calls run.2 = calls w.

Section RunVocabulary.
Context {W D : Type} (service : drive W) (dt : datelib W D).

(** How the remote store serves one query from the token [tok] on: the
    pages it answers, one after the other through their continuation
    tokens, until a page comes without a token ([None]) or a request
    raises ([Some e]). *)
Inductive pages_served (query : string)
    : option string → world W → list list_response → option exn → world W → Prop :=
  | served_fault tok w e w' :
      request_list service (search_request query tok) w = (Raise e, w') →
      pages_served query tok w [] (Some e) w'
  | served_last tok w r w' :
      request_list service (search_request query tok) w = (Ok r, w') →
      truthy_opt_str (nextPageToken r) = false →
      pages_served query tok w [r] None w'
  | served_next tok w r w1 rs ending w' :
      request_list service (search_request query tok) w = (Ok r, w1) →
      truthy_opt_str (nextPageToken r) = true →
      pages_served query (nextPageToken r) w1 rs ending w' →
      pages_served query tok w (r :: rs) ending w'.

Definition records_of (pages : list list_response) : list dict :=
  mjoin (files <$> pages).

(** The traversal, page by page: [listed f tok w out w'] follows the
    listing of the folder [f] from the token [tok] on, and
    [descended page w out w'] goes through the folders of one page.
    The folders of a page are each recorded and descended into before
    the next page of the listing is requested; the listing ends at a
    page without token or at a request that raises. *)
Inductive listed : string → option string → world W → list string → world W → Prop :=
  | listed_fault f tok w e w' :
      request_list service (subfolder_request f tok) w = (Raise e, w') →
      listed f tok w [] w'
  | listed_last f tok w r w1 out w' :
      request_list service (subfolder_request f tok) w = (Ok r, w1) →
      descended (files r) w1 out w' →
      truthy_opt_str (nextPageToken r) = false →
      listed f tok w out w'
  | listed_next f tok w r w1 out1 w2 out2 w' :
      request_list service (subfolder_request f tok) w = (Ok r, w1) →
      descended (files r) w1 out1 w2 →
      truthy_opt_str (nextPageToken r) = true →
      listed f (nextPageToken r) w2 out2 w' →
      listed f tok w (out1 ++ out2) w'
with descended : list dict → world W → list string → world W → Prop :=
  | descended_nil w :
      descended [] w [] w
  | descended_cons folder fid rest w below w1 out w' :
      get_id folder = Ok fid →
      listed fid None w below w1 →
      descended rest w1 out w' →
      descended (folder :: rest) w (fid :: below ++ out) w'.

Scheme listed_mut := Minimality for listed Sort Prop
  with descended_mut := Minimality for descended Sort Prop.

Combined Scheme traversal_mut from listed_mut, descended_mut.

(** A date given as a string that [strptime] refuses. *)
Definition unparseable (x : date_arg D) : Prop :=
  ∃ s, x = DateStr s ∧ strptime dt s "%Y-%m-%d" = None.

(** The pair recorded for one identifier: what [read_file_content]
    returns, and [(None, None)] when it raises. *)
Definition item_of (o : outcome (value * value)) : value * value :=
  match o with
  | Ok item => item
  | _ => (VNone, VNone)
  end.

Definition read_one (file_id : string) (w : world W) : (value * value) * world W :=
  (item_of (read_file_content service file_id w).1,
   (read_file_content service file_id w).2).

(** The identifiers read one after the other, each in the world the
    previous ones have left. *)
Fixpoint fetch_each (file_ids : list string) (w : world W)
    : list (value * value) * world W :=
  match file_ids with
  | [] => ([], w)
  | file_id :: rest =>
      let '(item, w1) := read_one file_id w in
      let '(items, w2) := fetch_each rest w1 in
      (item :: items, w2)
  end.

Definition world_after (file_ids : list string) (w : world W) : world W :=
  (fetch_each file_ids w).2.

(** The folder [fid] cannot be read: its metadata request ends in
    [HttpError] in every state of the store. *)
Definition unreadable (fid : string) : Prop :=
  ∀ rem, (files_get service fid metadata_fields rem).1 = Fault HttpError.

End RunVocabulary.

(** ** The persisted store and the heap *)

Section StoreVocabulary.
Context (idmap : gmap string value).

(** What a run does to one document, and how it ends: the identifiers
    are gone through in order, up to the first one missing from [idmap]. *)
Fixpoint relabel (ids : list string) (doc : dict) : dict :=
  match ids with
  | [] => doc
  | fid :: rest =>
      match idmap !! fid with
      | None => doc
      | Some name =>
          relabel rest (if parents_0_is fid doc then <["created_by" := name]> doc else doc)
      end
  end.

Fixpoint relabel_outcome (ids : list string) : outcome unit :=
  match ids with
  | [] => Ok tt
  | fid :: rest =>
      match idmap !! fid with
      | None => Raise KeyError
      | Some _ => relabel_outcome rest
      end
  end.

(** The label the run leaves on a document that carried [cur]. *)
Fixpoint last_label (ids : list string) (doc : dict) (cur : option value) : option value :=
  match ids with
  | [] => cur
  | fid :: rest =>
      match idmap !! fid with
      | None => cur
      | Some name => last_label rest doc (if parents_0_is fid doc then Some name else cur)
      end
  end.

Definition set_label (label : option value) (doc : dict) : dict :=
  match label with
  | Some v => <["created_by" := v]> doc
  | None => doc
  end.

End StoreVocabulary.

(** The record [d] after its turn against the fetched pair. *)
Definition with_content (d : dict) (fetched : value * value) : dict :=
  if decide (d !! "name" = Some fetched.1) then <["content" := fetched.2]> d else d.

(** The heap after the turn of the index that holds [l]. *)
Definition heap_after (h : heap) (l : loc) (fetched : value * value) : heap :=
  if decide (h l !! "name" = Some fetched.1)
  then <[l := <["content" := fetched.2]> (h l)]> h
  else h.

(** [m] only adds to the log, and only requests that satisfy [P]. *)
Definition emits {S A} (π : S → list call) (P : call → Prop) (m : M S A) : Prop :=
  ∀ s, ∃ extra, π (m s).2 = π s ++ extra ∧ Forall P extra.

(** The only exceptions [m] can end in are those of [E]. *)
Definition raises_only {S A} (E : exn → Prop) (m : M S A) : Prop :=
  ∀ s e, (m s).1 = Raise e → E e.

(** A search request for the query [query]. *)
Definition is_search_of (query : string) (c : call) : Prop :=
  ∃ tok, c = CList (search_request query tok).

(** A request for the folders listed under some folder. *)
Definition is_subfolder_listing (c : call) : Prop :=
  ∃ f tok, c = CList (subfolder_request f tok).

(** A request about the file [fid] sent by the reader. *)
Definition is_read_of (fid : string) (c : call) : Prop :=
  c = CGet fid metadata_fields ∨ ∃ mime, c = CExport fid mime.

(** The requests a discovery may send: the metadata of its root folder,
    listings of subfolders, searches. *)
Definition is_discovery_call (root : option string) (c : call) : Prop :=
  (∃ fid, root = Some fid ∧ c = CGet fid verify_fields)
  ∨ is_subfolder_listing c
  ∨ (∃ query, is_search_of query c).

(** The date strings [s] and [e] of the queries of a request sent in
    the state [rem]: its bounds as parsed, the day of the call for a
    missing end, seven days before the end for a missing start. *)
Definition window {W D} (dt : datelib W D) (req : filter_request D) (rem : W)
    (s e : string) : Prop :=
  ∃ sd ed,
    parse_date dt (start_date req) = Ok sd
    ∧ parse_date dt (end_date req) = Ok ed
    ∧ e = strftime dt (default (now dt rem) ed) "%Y-%m-%dT23:59:59"
    ∧ s = strftime dt (default (minus_days dt (default (now dt rem) ed) 7) sd)
            "%Y-%m-%dT00:00:00".

(** [m], run from the state [s], appends to the log only calls that
    satisfy [P]. *)
Definition emits_from {S A} (π : S → list call) (P : call → Prop) (m : M S A) (s : S)
    : Prop :=
  ∃ extra, π (m s).2 = π s ++ extra ∧ Forall P extra.

(** The query of [collect_files] for the folder [f]: Google documents
    with [gemini] in their name, created between [s] and [e]. *)
Definition gemini_query (s e f : string) : string :=
  "createdTime >= '" +:+ s +:+ "' and createdTime <= '" +:+ e
  +:+ "' and trashed = false and '" +:+ f
  +:+ "' in parents and (mimeType='application/vnd.google-apps.document') and (name contains 'gemini')".


(** A record whose name, if it has one, is a string. *)
Definition name_is_text (r : dict) : Prop :=
  r !! "name" = None ∨ ∃ s, r !! "name" = Some (VStr s).

#[global] Instance name_is_text_dec (r : dict) : Decision (name_is_text r).
Proof.
  unfold name_is_text. destruct (r !! "name") as [[| s | l]|].
  - right. intros [H | [s H]]; discriminate.
  - left. right. by exists s.
  - right. intros [H | [s H]]; discriminate.
  - left. by left.
Defined.

(** A record with an identifier that can be put in a set. *)
Definition has_hashable_id (r : dict) : Prop :=
  ∃ i, r !! "id" = Some i ∧ hashable i = true.

(** The record [d] with the label of its first parent, as
    [add_created_by_to_files] leaves it when the parent is in [idmap]. *)
Definition labelled (idmap : gmap string value) (d : dict) : dict :=
  match first_parent d with
  | Ok p =>
      match idmap !! p with
      | Some v => <["created_by" := v]> d
      | None => d
      end
  | _ => d
  end.

(** The first parent of a stored document, as the filter
    [{"parents.0": fid}] reads it. *)
Definition stored_first_parent (doc : dict) : option string :=
  match doc !! "parents" with
  | Some (VList (p :: _)) => Some p
  | _ => None
  end.

(** A record whose first parent is read without exception and is a key
    of [idmap]. *)
Definition attributable (idmap : gmap string value) (h : heap) (l : loc) : Prop :=
  ∃ p, first_parent (h l) = Ok p ∧ is_Some (idmap !! p).

(** * Properties *)

(** ** The monad *)

Lemma bind_unfold {S A B} (m : M S A) (k : A → M S B) (s : S) :
  (m ≫= k) s =
  match m s with
  | (Ok a, s') => k a s'
  | (Raise e, s') => (Raise e, s')
  | (Diverge, s') => (Diverge, s')
  end.
Proof. reflexivity. Qed.

Lemma bind_ok {S A B} (m : M S A) (k : A → M S B) (s s' : S) (b : B) :
  (m ≫= k) s = (Ok b, s') ↔ ∃ a s1, m s = (Ok a, s1) ∧ k a s1 = (Ok b, s').
Proof.
  rewrite bind_unfold. split.
  - destruct (m s) as [[a| e |] s1]; intros H; try discriminate. eauto.
  - intros (a & s1 & -> & H). exact H.
Qed.

Lemma ret_bind {S A B} (a : A) (k : A → M S B) (s : S) :
  (mret a ≫= k) s = k a s.
Proof. reflexivity. Qed.

Lemma lift_outcome_ok {S A} (o : outcome A) (s s' : S) (a : A) :
  lift_outcome o s = (Ok a, s') ↔ o = Ok a ∧ s' = s.
Proof. unfold lift_outcome. split; [intros [= -> ->] | intros [-> ->]]; auto. Qed.

Lemma ret_ok {S A} (x a : A) (s s' : S) :
  (mret x : M S A) s = (Ok a, s') ↔ a = x ∧ s' = s.
Proof. split; [intros [= -> ->] | intros [-> ->]]; auto. Qed.

(** ** Text *)


Lemma startswith_spec (p s : string) :
  startswith p s = true ↔ ∃ post, s = p +:+ post.
Proof.
  revert s. induction p as [|a p IH]; intros s; simpl.
  - split; [intros _; by exists s | done].
  - destruct s as [|b s].
    + split; [done | intros [post H]; discriminate].
    + rewrite andb_true_iff, bool_decide_eq_true, IH. split.
      * intros [-> [post ->]]. by exists post.
      * intros [post [= -> ->]]. eauto.
Qed.

Lemma contains_spec (k s : string) :
  contains k s = true ↔ substring_of k s.
Proof.
  unfold substring_of. induction s as [|c s IH]; simpl.
  - rewrite startswith_spec. split.
    + intros [post H]. by exists "", post.
    + intros (pre & post & H). destruct pre; [by exists post | discriminate].
  - rewrite orb_true_iff, startswith_spec, IH. split.
    + intros [[post H] | (pre & post & ->)].
      * by exists "", post.
      * by exists (String c pre), post.
    + intros (pre & post & H). destruct pre as [|c' pre].
      * left. by exists post.
      * right. injection H as -> ->. by exists pre, post.
Qed.

(** ** Deduplication *)



Lemma first_with_id_cons_eq (r : dict) (l : list dict) (i : value) :
  r !! "id" = Some i → first_with_id (r :: l) i = Some r.
Proof. intros H. unfold first_with_id. simpl. by rewrite bool_decide_eq_true_2. Qed.

Lemma first_with_id_cons_ne (r : dict) (l : list dict) (i : value) :
  r !! "id" ≠ Some i → first_with_id (r :: l) i = first_with_id l i.
Proof. intros H. unfold first_with_id. simpl. by rewrite bool_decide_eq_false_2. Qed.

(** What the loop adds to [unique_results]: a sublist of the input with
    pairwise different identifiers, none of them seen before, each
    record the first of the input with its identifier; and every
    identifier of the input is seen before or among the added ones. *)
Lemma remove_duplicates_loop_spec (all_results : list dict) :
  ∀ (seen : gset value) (unique_results out : list dict),
    remove_duplicates_loop all_results seen unique_results = Ok out →
    ∃ kept,
      out = unique_results ++ kept
      ∧ sublist kept all_results
      ∧ NoDup ((.!! "id") <$> kept)
      ∧ (∀ r, r ∈ kept → ∃ i, r !! "id" = Some i ∧ (i ∉ seen)
                              ∧ first_with_id all_results i = Some r)
      ∧ (∀ r, r ∈ all_results → ∃ i, r !! "id" = Some i
                              ∧ (i ∈ seen ∨ ∃ r', r' ∈ kept ∧ r' !! "id" = Some i)).
Proof.
  induction all_results as [|file rest IH]; intros seen acc out; simpl.
  - intros [= <-]. exists []. rewrite app_nil_r. split_and!.
    + done.
    + constructor.
    + constructor.
    + intros r Hr. inversion Hr.
    + intros r Hr. inversion Hr.
  - destruct (file !! "id") as [i0|] eqn:Hid; [|discriminate].
    destruct (hashable i0); [|discriminate].
    destruct (decide (i0 ∉ seen)) as [Hnew|Hold]; intros Hrun.
    + apply IH in Hrun as (kept & -> & Hsub & Hnd & Hkept & Hall).
      exists (file :: kept). rewrite <- app_assoc. split_and!.
      * done.
      * by constructor.
      * rewrite fmap_cons. apply NoDup_cons_2; [|done].
        intros Hin. apply list_elem_of_fmap in Hin as (r & Hr & Hrin).
        apply Hkept in Hrin as (i & Hi & Hns & _).
        rewrite Hid in Hr. rewrite Hi in Hr. injection Hr as ->.
        apply Hns. set_solver.
      * intros r [-> | Hr]%elem_of_cons.
        -- exists i0. split; [done|]. split; [done|]. by apply first_with_id_cons_eq.
        -- apply Hkept in Hr as (i & Hi & Hns & Hfirst).
           exists i. split; [done|]. split; [set_solver|].
           rewrite first_with_id_cons_ne; [done|].
           rewrite Hid. intros [= ->]. apply Hns. set_solver.
      * intros r [-> | Hr]%elem_of_cons.
        -- exists i0. split; [done|]. right. exists file. split; [left | done].
        -- apply Hall in Hr as (i & Hi & [Hs | (r' & Hr' & Hi')]).
           ++ exists i. split; [done|].
              apply elem_of_union in Hs as [->%elem_of_singleton | Hs].
              ** right. exists file. split; [left | done].
              ** by left.
           ++ exists i. split; [done|]. right. exists r'. split; [by right | done].
    + apply dec_stable in Hold.
      apply IH in Hrun as (kept & -> & Hsub & Hnd & Hkept & Hall).
      exists kept. split_and!.
      * done.
      * by apply sublist_cons.
      * done.
      * intros r Hr. apply Hkept in Hr as (i & Hi & Hns & Hfirst).
        exists i. split; [done|]. split; [done|].
        rewrite first_with_id_cons_ne; [done|].
        rewrite Hid. intros [= ->]. by apply Hns.
      * intros r [-> | Hr]%elem_of_cons.
        -- exists i0. split; [done | by left].
        -- by apply Hall.
Qed.

Lemma remove_duplicates_spec (all_results out : list dict) :
  remove_duplicates all_results = Ok out →
  sublist out all_results
  ∧ NoDup ((.!! "id") <$> out)
  ∧ (∀ r, r ∈ out → ∃ i, r !! "id" = Some i ∧ first_with_id all_results i = Some r)
  ∧ (∀ r, r ∈ all_results → ∃ r', r' ∈ out ∧ r' !! "id" = r !! "id").
Proof.
  intros H. apply remove_duplicates_loop_spec in H as (kept & -> & Hsub & Hnd & Hkept & Hall).
  simpl. split_and!; [done | done | |].
  - intros r Hr. apply Hkept in Hr as (i & Hi & _ & Hf). eauto.
  - intros r Hr. apply Hall in Hr as (i & Hi & [Hs | (r' & Hr' & Hi')]).
    + set_solver.
    + exists r'. split; [done|]. by rewrite Hi.
Qed.

(** ** Exclusion by keyword *)


Lemma filename_lower_ok (r : dict) (n : string) :
  filename_lower r = Ok n → n = lower (record_name r).
Proof.
  unfold filename_lower, record_name.
  destruct (r !! "name") as [[| s | l]|]; intros H; by inversion H.
Qed.

Lemma excluded_spec (ks : list string) (r : dict) :
  excluded ks r = true ↔ ∃ k, k ∈ ks ∧ name_matches k r.
Proof.
  unfold excluded, should_exclude, name_matches.
  rewrite existsb_exists. split.
  - intros (k & Hin & Hc). exists k. split.
    + by apply list_elem_of_In.
    + by apply contains_spec.
  - intros (k & Hin & Hc). exists k. split.
    + by apply list_elem_of_In.
    + by apply contains_spec.
Qed.

Lemma filter_loop_spec (ks : list string) (files : list dict) :
  ∀ filtered_files out,
    filter_loop files ks filtered_files = Ok out →
    out = filtered_files ++ filter (λ r, excluded ks r = false) files.
Proof.
  induction files as [|file rest IH]; intros acc out; simpl.
  - intros [= <-]. by rewrite app_nil_r.
  - destruct (filename_lower file) as [n | e |] eqn:Hn; try discriminate.
    apply filename_lower_ok in Hn as ->.
    fold (excluded ks file).
    destruct (excluded ks file) eqn:Hex; intros Hrun; apply IH in Hrun as ->.
    + by rewrite filter_cons_False by (rewrite Hex; discriminate).
    + rewrite filter_cons_True by done. by rewrite <- app_assoc.
Qed.

Lemma filter_by_exclude_keywords_spec (files out : list dict) (ks : list string) :
  ks ≠ [] →
  filter_by_exclude_keywords files (Some ks) = Ok out →
  out = filter (λ r, excluded ks r = false) files.
Proof.
  intros Hne. destruct ks as [|k ks]; [done|]. simpl.
  intros H. by apply filter_loop_spec in H.
Qed.

(** ** The shape of a discovery run *)


Section DiscoveryRun.
Context {W D : Type} (service : drive W) (dt : datelib W D).

Lemma get_files_in_date_range_ok (fuel : nat) (req : filter_request D)
    (w w' : world W) (out : list dict) :
  get_files_in_date_range service dt fuel req w = (Ok out, w') →
  ∃ gathered candidates,
    gather_results service dt fuel req w = (Ok gathered, w')
    ∧ candidates_of gathered = Ok candidates
    ∧ out = match exclude_keywords req with
            | Some (k :: ks) => filter (λ r, excluded (k :: ks) r = false) candidates
            | _ => candidates
            end.
Proof.
  unfold get_files_in_date_range. intros H.
  apply bind_ok in H as (gathered & w1 & Hg & H).
  exists gathered. destruct gathered as [all_results|].
  - apply bind_ok in H as (u & w2 & Hu & H).
    apply lift_outcome_ok in Hu as [Hu ->].
    exists u. destruct (exclude_keywords req) as [[|k ks]|] eqn:Hex; simpl in H.
    + apply ret_ok in H as [-> ->]. done.
    + apply lift_outcome_ok in H as [H ->].
      apply filter_loop_spec in H as ->. done.
    + apply ret_ok in H as [-> ->]. done.
  - apply ret_ok in H as [-> ->]. exists []. split_and!; [done | done |].
    by destruct (exclude_keywords req) as [[|k ks]|].
Qed.

(** What a run returns is a sublist of its candidates. *)
Lemma get_files_in_date_range_sublist (fuel : nat) (req : filter_request D)
    (w w' : world W) (out : list dict) :
  get_files_in_date_range service dt fuel req w = (Ok out, w') →
  ∃ gathered candidates,
    gather_results service dt fuel req w = (Ok gathered, w')
    ∧ candidates_of gathered = Ok candidates
    ∧ sublist out candidates
    ∧ (truthy_opt_list (exclude_keywords req) = false → out = candidates).
Proof.
  intros H. apply get_files_in_date_range_ok in H as (g & c & Hg & Hc & ->).
  exists g, c. split_and!; [done | done | |].
  - destruct (exclude_keywords req) as [[|k ks]|]; try done.
    apply sublist_filter.
  - by destruct (exclude_keywords req) as [[|k ks]|].
Qed.

(** C1. For every discovery run that returns, the returned list holds
    no two records with the same identifier; it is a sublist of the
    merged folder results, so first-seen order is kept; each returned
    record is the first of the merged results with its identifier;
    and, when nothing is excluded by keyword, every identifier of the
    merged results is returned. *)
Theorem discover_dedup_first_seen (fuel : nat) (req : filter_request D)
    (w w' : world W) (out : list dict) :
  get_files_in_date_range service dt fuel req w = (Ok out, w') →
  NoDup ((.!! "id") <$> out)
  ∧ ∃ gathered,
      gather_results service dt fuel req w = (Ok gathered, w')
      ∧ sublist out (default [] gathered)
      ∧ (∀ r, r ∈ out →
           ∃ i, r !! "id" = Some i ∧ first_with_id (default [] gathered) i = Some r)
      ∧ (truthy_opt_list (exclude_keywords req) = false →
           ∀ r, r ∈ default [] gathered → ∃ r', r' ∈ out ∧ r' !! "id" = r !! "id").
Proof.
  intros H.
  apply get_files_in_date_range_sublist in H as (g & c & Hg & Hc & Hsub & Hall).
  destruct g as [all_results|]; simpl in Hc.
  - apply remove_duplicates_spec in Hc as (Hsub' & Hnd & Hfirst & Hcover).
    split.
    + eapply sublist_NoDup; [exact Hnd|]. by apply fmap_sublist.
    + exists (Some all_results). simpl. split_and!.
      * done.
      * by etrans.
      * intros r Hr. apply Hfirst. by eapply elem_of_sublist.
      * intros Hno r Hr. rewrite (Hall Hno). by apply Hcover.
  - injection Hc as <-. apply sublist_nil_r in Hsub as ->.
    split; [constructor|]. exists None. simpl. split_and!; try done.
    + intros r Hr. inversion Hr.
    + intros _ r Hr. inversion Hr.
Qed.


End DiscoveryRun.

(** C1, run on the folder tree of the fixtures: [X1] is listed under [F1]
    and under [F2] and is returned once. *)
Lemma discover_dedup_first_seen_witness :
  NoDup ((.!! "id") <$> Fixtures.tree_found)
  ∧ Fixtures.tree_found !! 0%nat = Some (Fixtures.record "X1" "Minutes.gdoc").
Proof.
  split; [|reflexivity].
  refine (proj1 (discover_dedup_first_seen Fixtures.tree_drive Fixtures.iso_dates 5
            Fixtures.tree_request Fixtures.start
            (get_files_in_date_range Fixtures.tree_drive Fixtures.iso_dates 5
               Fixtures.tree_request Fixtures.start).2
            Fixtures.tree_found _)).
  vm_compute. reflexivity.
Defined.


(** ** Paginated search *)

Section SearchRun.
Context {W : Type} (service : drive W).


Lemma search_while_served (query : string) (tok : option string) (w w' : world W)
    (pages : list list_response) (ending : option exn) :
  pages_served service query tok w pages ending w' →
  ∀ fuel results, length pages < fuel →
    search_while service fuel query tok (results, w)
    = (match ending with None => Ok tt | Some e => Raise e end,
       (results ++ records_of pages, w')).
Proof.
  induction 1 as [tok w e w' Hreq | tok w r w' Hreq Htok
                 | tok w r w1 rs ending w' Hreq Htok Hrest IH];
    intros [|fuel] results Hfuel; simpl in Hfuel; try lia;
    simpl; unfold search_turn; rewrite !bind_unfold; unfold with_local; simpl;
    rewrite Hreq; simpl.
  - by rewrite app_nil_r.
  - rewrite Htok. simpl. unfold records_of. simpl. by rewrite app_nil_r.
  - rewrite Htok. simpl. rewrite IH by lia.
    unfold records_of. simpl. by rewrite <- app_assoc.
Qed.

Lemma search_while_no_raise_after_catch (fuel : nat) (query : string)
    (tok : option string) (s : list dict * world W) (e : exn) :
  (try_except (search_while service fuel query tok) (λ error, mret tt) s).1 ≠ Raise e.
Proof.
  unfold try_except.
  destruct (search_while service fuel query tok s) as [[[] | e' |] s']; done.
Qed.

(** C7. [execute_search] never raises; and whatever the point at which a
    request fails, it returns exactly the records of the pages served
    before the failure, while on a run without failure it returns the
    records of all the pages, in order, up to the first page that comes
    without continuation token. *)
Theorem execute_search_partial_on_failure (fuel : nat) (query : string)
    (debug : bool) (w : world W) :
  (∀ e, (execute_search service fuel query debug w).1 ≠ Raise e)
  ∧ (∀ pages ending w',
       pages_served service query None w pages ending w' →
       length pages < fuel →
       execute_search service fuel query debug w = (Ok (records_of pages), w')).
Proof.
  split.
  - intros e. unfold execute_search, run_local.
    pose proof (search_while_no_raise_after_catch fuel query None ([], w)) as Hno.
    destruct (try_except _ _ _) as [[[] | e' |] s'] eqn:Hrun; simpl; try done.
    exfalso. by apply (Hno e').
  - intros pages ending w' Hserved Hfuel.
    unfold execute_search, run_local, try_except.
    rewrite (search_while_served _ _ _ _ _ _ Hserved fuel [] Hfuel).
    by destruct ending.
Qed.

End SearchRun.

(** C7, on a query whose third request raises: the records of the two
    pages served before are returned. *)
Lemma execute_search_partial_on_failure_witness :
  execute_search Fixtures.paged_drive 4 "trashed = false" false Fixtures.start
  = (Ok [Fixtures.record "a" "first.gdoc"; Fixtures.record "b" "second.gdoc"],
     {| remote := tt; calls := Fixtures.paged_log "trashed = false" |}).
Proof.
  refine (proj2 (execute_search_partial_on_failure Fixtures.paged_drive 4
                   "trashed = false" false Fixtures.start)
            [ {| files := [Fixtures.record "a" "first.gdoc"]; nextPageToken := Some "t1" |};
              {| files := [Fixtures.record "b" "second.gdoc"]; nextPageToken := Some "t2" |} ]
            (Some HttpError) _ _ _).
  - eapply served_next; [reflexivity | reflexivity |].
    eapply served_next; [reflexivity | reflexivity |].
    eapply served_fault. reflexivity.
  - simpl. lia.
Defined.

(** ** Folder traversal *)

Section Traversal.
Context {W : Type} (service : drive W).


Lemma subfolders_turn_fault (recurse : string → M (world W) (list string))
    (f : string) (tok : option string) (acc : list string) (w w' : world W) (e : exn) :
  request_list service (subfolder_request f tok) w = (Raise e, w') →
  subfolders_turn service recurse f tok (acc, w) = (Ok Break, (acc, w')).
Proof.
  intros Hreq. unfold subfolders_turn, try_except.
  rewrite bind_unfold. unfold with_local. simpl. by rewrite Hreq.
Qed.

Lemma subfolders_turn_page (recurse : string → M (world W) (list string))
    (f : string) (tok : option string) (acc acc' : list string)
    (w w1 w2 : world W) (r : list_response) :
  request_list service (subfolder_request f tok) w = (Ok r, w1) →
  for_each (files r) (descend recurse) (acc, w1) = (Ok tt, (acc', w2)) →
  subfolders_turn service recurse f tok (acc, w)
  = (Ok (if negb (truthy_opt_str (nextPageToken r)) then Break
         else Continue (nextPageToken r)), (acc', w2)).
Proof.
  intros Hreq Hpage. unfold subfolders_turn, try_except.
  rewrite bind_unfold. unfold with_local. simpl. rewrite Hreq. simpl.
  rewrite bind_unfold, Hpage. by destruct (truthy_opt_str (nextPageToken r)).
Qed.

Lemma descend_ok (recurse : string → M (world W) (list string)) (folder : dict)
    (fid : string) (acc below : list string) (w w1 : world W) :
  get_id folder = Ok fid →
  recurse fid w = (Ok below, w1) →
  descend recurse folder (acc, w) = (Ok tt, (acc ++ fid :: below, w1)).
Proof.
  intros Hid Hrec. unfold descend, lift_outcome, extend, with_local.
  rewrite bind_unfold, Hid. rewrite bind_unfold. simpl.
  rewrite bind_unfold. simpl. rewrite Hrec. simpl. by rewrite <- app_assoc.
Qed.

Lemma get_all_subfolders_of_while (f : string) (w w' : world W) (out : list string) (n : nat) :
  (∀ (fr fl : nat) acc, (n ≤ fr)%nat → (n ≤ fl)%nat →
     subfolders_while service (get_all_subfolders service fr) fl f None (acc, w)
     = (Ok tt, (acc ++ out, w'))) →
  ∀ fuel : nat, (S n ≤ fuel)%nat → get_all_subfolders service fuel f w = (Ok out, w').
Proof.
  intros Hwhile [|fuel] Hfuel; [lia|].
  simpl. unfold run_local. by rewrite (Hwhile fuel fuel []) by lia.
Qed.

Lemma traversal_runs :
  (∀ f tok w out w', listed service f tok w out w' →
     ∃ n : nat, ∀ (fr fl : nat) acc, (n ≤ fr)%nat → (n ≤ fl)%nat →
       subfolders_while service (get_all_subfolders service fr) fl f tok (acc, w)
       = (Ok tt, (acc ++ out, w')))
  ∧ (∀ page w out w', descended service page w out w' →
     ∃ n : nat, ∀ (fr : nat) acc, (n ≤ fr)%nat →
       for_each page (descend (get_all_subfolders service fr)) (acc, w)
       = (Ok tt, (acc ++ out, w'))).
Proof.
  apply (traversal_mut service).
  - intros f tok w e w' Hreq. exists 1. intros fr [|fl] acc _ Hfl; [lia|].
    simpl. rewrite bind_unfold, (subfolders_turn_fault _ _ _ _ _ _ _ Hreq).
    by rewrite app_nil_r.
  - intros f tok w r w1 out w' Hreq _ [n IH] Htok.
    exists (S n). intros fr [|fl] acc Hfr Hfl; [lia|].
    simpl. rewrite bind_unfold.
    rewrite (subfolders_turn_page _ _ _ _ _ _ _ _ _ Hreq (IH fr acc ltac:(lia))).
    by rewrite Htok.
  - intros f tok w r w1 out1 w2 out2 w' Hreq _ [n1 IH1] Htok _ [n2 IH2].
    exists (S (n1 + n2)). intros fr [|fl] acc Hfr Hfl; [lia|].
    simpl. rewrite bind_unfold.
    rewrite (subfolders_turn_page _ _ _ _ _ _ _ _ _ Hreq (IH1 fr acc ltac:(lia))).
    rewrite Htok. simpl. rewrite IH2 by lia. by rewrite app_assoc.
  - intros w. exists 0. intros fr acc _. simpl. by rewrite app_nil_r.
  - intros folder fid rest w below w1 out w' Hid _ [n1 IH1] _ [n2 IH2].
    exists (S (n1 + n2)). intros fr acc Hfr.
    simpl. rewrite bind_unfold.
    rewrite (descend_ok _ _ _ _ _ _ _ Hid
               (get_all_subfolders_of_while _ _ _ _ _ IH1 fr ltac:(lia))).
    rewrite IH2 by lia. by rewrite <- app_assoc.
Qed.

(** C5, as the code has it. The listing of a visited folder is followed
    page by page through the continuation token, up to a page without
    token or a request that raises, and the folders of each page are
    recorded and descended into, depth first, before the next page is
    requested: every traversal of that shape is what
    [get_all_subfolders] does and returns, given enough fuel. *)
Theorem get_all_subfolders_page_by_page (f : string) (w w' : world W) (out : list string) :
  listed service f None w out w' →
  ∃ n : nat, ∀ fuel : nat, (n ≤ fuel)%nat →
    get_all_subfolders service fuel f w = (Ok out, w').
Proof.
  intros H. apply (proj1 traversal_runs) in H as [n Hn].
  exists (S n). by apply get_all_subfolders_of_while.
Qed.

End Traversal.


(** C5 fails on a listing of two pages: the folder [A] of the first page
    is descended into before the second page of [R] is requested. *)
Lemma get_all_subfolders_descends_before_next_page :
  get_all_subfolders Fixtures.two_page_drive 3 "R" Fixtures.start
  = (Ok ["A"; "B"], {| remote := tt; calls := Fixtures.two_page_log |})
  ∧ ¬ drained_before_descent "R" "A" Fixtures.two_page_log.
Proof.
  split; [vm_compute; reflexivity|].
  intros H. specialize (H 2%nat 1%nat (Some "p2") eq_refl eq_refl). lia.
Qed.

(** C5 as amended, on the same listing. *)
Lemma get_all_subfolders_page_by_page_witness :
  ∃ n : nat, ∀ fuel : nat, (n ≤ fuel)%nat →
    get_all_subfolders Fixtures.two_page_drive fuel "R" Fixtures.start
    = (Ok ["A"; "B"], {| remote := tt; calls := Fixtures.two_page_log |}).
Proof.
  apply (get_all_subfolders_page_by_page Fixtures.two_page_drive "R" Fixtures.start
           {| remote := tt; calls := Fixtures.two_page_log |} (["A"] ++ ["B"])).
  eapply listed_next; [reflexivity | | reflexivity |].
  - eapply (descended_cons _ _ "A" [] _ [] _ []); [reflexivity | | apply descended_nil].
    eapply listed_last; [reflexivity | apply descended_nil | reflexivity].
  - eapply listed_last; [reflexivity | | reflexivity].
    eapply (descended_cons _ _ "B" [] _ [] _ []); [reflexivity | | apply descended_nil].
    eapply listed_last; [reflexivity | apply descended_nil | reflexivity].
Defined.

(** ** The call log only grows *)


Section Growth.
Context {S : Type} (π : S → list call).


Lemma grows_raise {A} (e : exn) : grows π (raise e : M S A).
Proof. intros s. done. Qed.






End Growth.

Section GrowthOfRequests.
Context {W : Type} (service : drive W).



Lemma grows_request_get (fileId flds : string) :
  grows calls (request_get service fileId flds).
Proof.
  intros w. unfold request_get.
  destruct (files_get service fileId flds (remote w)) as [r rem]. simpl. by apply prefix_app_r.
Qed.

Lemma grows_request_export (fileId mime : string) :
  grows calls (request_export service fileId mime).
Proof.
  intros w. unfold request_export.
  destruct (files_export_media service fileId mime (remote w)) as [r rem].
  simpl. by apply prefix_app_r.
Qed.








End GrowthOfRequests.

(** ** Malformed filter requests *)


Section Malformed.
Context {W D : Type} (service : drive W) (dt : datelib W D).


Lemma parse_date_unparseable (x : date_arg D) :
  unparseable dt x → parse_date dt x = Raise ValueError.
Proof. intros (s & -> & Hs). simpl. by rewrite Hs. Qed.

Lemma parse_date_outcome (x : date_arg D) :
  (∃ d, parse_date dt x = Ok d) ∨ parse_date dt x = Raise ValueError.
Proof.
  destruct x as [s | d |]; simpl; eauto.
  destruct (strptime dt s "%Y-%m-%d"); eauto.
Qed.

Lemma gather_results_unparseable (fuel : nat) (req : filter_request D) (w : world W) :
  unparseable dt (start_date req) ∨ unparseable dt (end_date req) →
  gather_results service dt fuel req w = (Raise ValueError, w).
Proof.
  intros Hbad. unfold gather_results. rewrite bind_unfold. unfold lift_outcome at 1.
  destruct (parse_date_outcome (start_date req)) as [[sd Hsd] | Hsd]; rewrite Hsd; [|done].
  destruct Hbad as [Hbad | Hbad].
  - apply parse_date_unparseable in Hbad. congruence.
  - apply parse_date_unparseable in Hbad.
    rewrite bind_unfold. unfold lift_outcome at 1. by rewrite Hbad.
Qed.

Lemma time_field_of_other (st : string) :
  st ≠ "modified" → time_field_of st = time_field_of "created".
Proof. intros Hst. unfold time_field_of. by rewrite decide_False. Qed.

(** C6, as the code has it. A start or end date given as a string that
    does not parse makes [get_files_in_date_range] raise [ValueError]
    before any request is sent.  A search type other than ['modified']
    is not rejected: the run is the run of a ['created'] request. *)
Theorem malformed_request_handling (fuel : nat) (req : filter_request D) (w : world W) :
  (unparseable dt (start_date req) ∨ unparseable dt (end_date req) →
     get_files_in_date_range service dt fuel req w = (Raise ValueError, w))
  ∧ (search_type req ≠ "modified" →
     get_files_in_date_range service dt fuel req w
     = get_files_in_date_range service dt fuel (with_search_type "created" req) w).
Proof.
  split.
  - intros Hbad. unfold get_files_in_date_range. rewrite bind_unfold.
    by rewrite gather_results_unparseable.
  - intros Hst. unfold get_files_in_date_range, gather_results. simpl.
    by rewrite (time_field_of_other _ Hst).
Qed.

End Malformed.

(** C6 fails on the search type ['weekly']: the request is served as a
    ['created'] one, and requests are sent. *)
Lemma unsupported_search_type_not_rejected :
  Fixtures.weekly_request.(search_type) ≠ "created"
  ∧ Fixtures.weekly_request.(search_type) ≠ "modified"
  ∧ (get_files_in_date_range Fixtures.tree_drive Fixtures.iso_dates 5
       Fixtures.weekly_request Fixtures.start).1 = Ok Fixtures.tree_found
  ∧ ¬ rejected_before_any_request
        (get_files_in_date_range Fixtures.tree_drive Fixtures.iso_dates 5
           Fixtures.weekly_request Fixtures.start) Fixtures.start.
Proof.
  split; [discriminate|]. split; [discriminate|]. split; [vm_compute; reflexivity|].
  intros [[e He] _]. vm_compute in He. discriminate.
Qed.

(** C6 as amended, on a start date written ['11/01/2025']. *)
Lemma malformed_request_handling_witness :
  get_files_in_date_range Fixtures.tree_drive Fixtures.iso_dates 5
    Fixtures.misdated_request Fixtures.start
  = (Raise ValueError, Fixtures.start).
Proof.
  apply (proj1 (malformed_request_handling Fixtures.tree_drive Fixtures.iso_dates 5
                  Fixtures.misdated_request Fixtures.start)).
  left. exists "11/01/2025". split; reflexivity.
Defined.

(** ** Verification of the root folder *)

Section Prefixes.
Context {S : Type} (π : S → list call).



End Prefixes.

Section Verification.
Context {W D : Type} (service : drive W) (dt : datelib W D).

Lemma run_local_calls {L} (init : L) (m : M (L * world W) unit) (w : world W) :
  calls (run_local init m w).2 = local_calls (m (init, w)).2.
Proof. unfold run_local, local_calls. by destruct (m (init, w)) as [[[] | e |] s1]. Qed.

Lemma with_local_calls {L A} (m : M (world W) A) (l : L) (w : world W) :
  local_calls (with_local m (l, w)).2 = calls (m w).2.
Proof. unfold with_local, local_calls. simpl. by destruct (m w). Qed.

Lemma request_list_calls (req : list_request) (w : world W) :
  calls (request_list service req w).2 = calls w ++ [CList req].
Proof. unfold request_list. by destruct (files_list service req (remote w)). Qed.





Lemma verify_folder_access_fault (fid : string) (w : world W) (e : exn) (rem' : W) :
  files_get service fid verify_fields (remote w) = (Fault e, rem') →
  verify_folder_access service fid w
  = (Ok None, {| remote := rem'; calls := calls w ++ [CGet fid verify_fields] |}).
Proof.
  intros Hget. unfold verify_folder_access, try_except.
  rewrite bind_unfold. unfold request_get. by rewrite Hget.
Qed.

Lemma verify_folder_access_answer (fid : string) (w : world W) (m : dict) (rem' : W) :
  files_get service fid verify_fields (remote w) = (Answer m, rem') →
  verify_folder_access service fid w
  = (Ok (Some m), {| remote := rem'; calls := calls w ++ [CGet fid verify_fields] |}).
Proof.
  intros Hget. unfold verify_folder_access, try_except.
  rewrite bind_unfold. unfold request_get. by rewrite Hget.
Qed.






End Verification.



(** ** Fetching the contents of a batch *)



Lemma total_ret {S A} (a : A) : total (mret a : M S A).
Proof. intros s. done. Qed.

Lemma total_raise {S A} (e : exn) : total (raise e : M S A).
Proof. intros s. done. Qed.

Lemma total_bind {S A B} (m : M S A) (k : A → M S B) :
  total m → (∀ a, total (k a)) → total (m ≫= k).
Proof.
  intros Hm Hk s. rewrite bind_unfold. specialize (Hm s).
  destruct (m s) as [[a | e |] s1]; simpl in *; [apply Hk | done | done].
Qed.

Lemma total_try_except {S A} (body : M S A) (handler : exn → M S A) :
  total body → (∀ e, total (handler e)) → total (try_except body handler).
Proof.
  intros Hb Hh s. unfold try_except. specialize (Hb s).
  destruct (body s) as [[a | e |] s1]; simpl in *; [done | apply Hh | done].
Qed.

Section Fetch.
Context {W : Type} (service : drive W).

Lemma total_request_get (fileId flds : string) : total (request_get service fileId flds).
Proof.
  intros w. unfold request_get.
  by destruct (files_get service fileId flds (remote w)) as [[r | e] rem].
Qed.

Lemma total_request_export (fileId mime : string) :
  total (request_export service fileId mime).
Proof.
  intros w. unfold request_export.
  by destruct (files_export_media service fileId mime (remote w)) as [[r | e] rem].
Qed.

Lemma total_except_http {A} (body : M (world W) (option A)) :
  total body → total (except_http body).
Proof.
  intros Hb. apply total_try_except; [done|]. intros e.
  destruct (decide (e = HttpError)); [apply total_ret | apply total_raise].
Qed.

Lemma total_read_file_content (file_id : string) :
  total (read_file_content service file_id).
Proof.
  unfold read_file_content. apply total_bind.
  - apply total_except_http, total_bind; [apply total_request_get|].
    intros a. apply total_ret.
  - intros metadata. destruct (negb _); [apply total_ret|].
    apply total_bind; [|intros c; apply total_ret].
    repeat case_decide; [| |apply total_ret];
      apply total_except_http, total_bind;
      try apply total_request_export; intros a; apply total_ret.
Qed.


Lemma fetch_each_length (file_ids : list string) (w : world W) :
  length (fetch_each service file_ids w).1 = length file_ids.
Proof.
  revert w. induction file_ids as [|fid rest IH]; intros w; simpl; [done|].
  specialize (IH (read_file_content service fid w).2).
  destruct (fetch_each service rest _) as [items w2]. simpl in *. by rewrite IH.
Qed.

Lemma fetch_each_lookup (file_ids : list string) (w : world W) (i : nat) (fid : string) :
  file_ids !! i = Some fid →
  (fetch_each service file_ids w).1 !! i
  = Some (item_of (read_file_content service fid (world_after service (take i file_ids) w)).1).
Proof.
  revert w i. induction file_ids as [|f rest IH]; intros w i Hi; [done|].
  destruct i as [|i]; simpl in *.
  - injection Hi as ->.
    by destruct (fetch_each service rest _) as [items w2].
  - specialize (IH (read_file_content service f w).2 i Hi).
    unfold world_after in *. simpl.
    destruct (fetch_each service rest _) as [items w2]. simpl in *. rewrite IH.
    by destruct (fetch_each service (take i rest) _) as [items' w3].
Qed.

Lemma read_item_run (file_id : string) (results : list (value * value)) (w : world W) :
  read_item service file_id (results, w)
  = (Ok tt, (results ++ [(read_one service file_id w).1], (read_one service file_id w).2)).
Proof.
  unfold read_item, try_except, read_one. rewrite bind_unfold. unfold with_local. simpl.
  pose proof (total_read_file_content file_id w) as Htotal.
  destruct (read_file_content service file_id w) as [[[name content] | e |] w1];
    simpl in *; done.
Qed.

Lemma for_each_read_item (file_ids : list string) :
  ∀ (results : list (value * value)) (w : world W),
    for_each file_ids (read_item service) (results, w)
    = (Ok tt, (results ++ (fetch_each service file_ids w).1, (fetch_each service file_ids w).2)).
Proof.
  induction file_ids as [|fid rest IH]; intros results w; simpl.
  - by rewrite app_nil_r.
  - rewrite bind_unfold, read_item_run. unfold read_one. simpl. rewrite IH.
    destruct (fetch_each service rest _) as [items w2]. simpl. by rewrite <- app_assoc.
Qed.

(** C8. [read_multiple_files] always returns, with a list as long as
    [file_ids]; the pair at position [i] is the one read for
    [file_ids[i]], after the items before it; it is [(None, None)]
    whenever reading that item raises, and in particular whenever the
    metadata request for it fails: no item stops the ones after it. *)
Theorem read_multiple_files_positional (file_ids : list string) (w : world W) :
  ∃ results w',
    read_multiple_files service file_ids w = (Ok results, w')
    ∧ length results = length file_ids
    ∧ (∀ (i : nat) fid, file_ids !! i = Some fid →
         results !! i
         = Some (item_of (read_file_content service fid
                            (world_after service (take i file_ids) w)).1))
    ∧ (∀ fid w0 e rem',
         files_get service fid metadata_fields (remote w0) = (Fault e, rem') →
         item_of (read_file_content service fid w0).1 = (VNone, VNone)).
Proof.
  exists (fetch_each service file_ids w).1, (fetch_each service file_ids w).2. split_and!.
  - unfold read_multiple_files, run_local. by rewrite for_each_read_item.
  - apply fetch_each_length.
  - intros i fid Hi. by apply fetch_each_lookup.
  - intros fid w0 e rem' Hget. unfold read_file_content, get_file_metadata.
    rewrite bind_unfold. unfold except_http, try_except.
    rewrite bind_unfold. unfold request_get. rewrite Hget. simpl.
    by destruct (decide (e = HttpError)).
Qed.

End Fetch.

(** The reader on a batch of six identifiers: contents for the document
    and the sheet, a name without content for the PDF and for the
    document whose export is refused, [(None, None)] for the two
    identifiers whose metadata cannot be fetched. *)
Example read_multiple_files_batch :
  (read_multiple_files Fixtures.reader_drive
     ["doc"; "gone"; "sheet"; "broken"; "pdf"; "locked"] Fixtures.start).1
  = Ok [(VStr "Plan", VStr "hello"); (VNone, VNone); (VStr "Budget", VStr "a,b");
        (VNone, VNone); (VStr "scan.pdf", VNone); (VStr "Secret", VNone)].
Proof. vm_compute. reflexivity. Qed.

(** C8, on that batch: six identifiers, six pairs, the second one
    [(None, None)]. *)
Lemma read_multiple_files_positional_witness :
  ∃ results w',
    read_multiple_files Fixtures.reader_drive
      ["doc"; "gone"; "sheet"; "broken"; "pdf"; "locked"] Fixtures.start
    = (Ok results, w')
    ∧ length results = 6%nat
    ∧ results !! 1%nat = Some (VNone, VNone).
Proof.
  destruct (read_multiple_files_positional Fixtures.reader_drive
              ["doc"; "gone"; "sheet"; "broken"; "pdf"; "locked"] Fixtures.start)
    as (results & w' & Hrun & Hlen & Hat & _).
  exists results, w'. split; [exact Hrun|]. split; [exact Hlen|].
  rewrite (Hat 1%nat "gone" eq_refl). reflexivity.
Defined.

(** ** Attribution: one metadata lookup per element *)



Lemma lookups_app (l1 l2 : list call) : lookups (l1 ++ l2) = lookups l1 ++ lookups l2.
Proof. apply omap_app. Qed.

Lemma parents_loop_spec (shared_files : list dict) :
  ∀ parents_ids out,
    parents_loop shared_files parents_ids = Ok out →
    ∃ parents,
      Forall2 (λ file p, first_parent file = Ok p) shared_files parents
      ∧ out = reverse parents ++ parents_ids.
Proof.
  induction shared_files as [|file rest IH]; intros acc out; simpl.
  - intros [= <-]. exists []. split; [constructor | done].
  - destruct (first_parent file) as [p | e |] eqn:Hp; try discriminate.
    intros Hrun. apply IH in Hrun as (parents & Hall & ->).
    exists (p :: parents). split; [by constructor|].
    by rewrite reverse_cons, <- app_assoc.
Qed.

Section AttributionLookups.
Context {W : Type} (service : drive W).

Lemma except_http_state {A} (body : M (world W) (option A)) (w : world W) :
  (except_http body w).2 = (body w).2.
Proof.
  unfold except_http, try_except.
  destruct (body w) as [[a | e |] w1]; simpl; [done | | done].
  by destruct (decide (e = HttpError)).
Qed.

Lemma get_file_metadata_calls (file_id : string) (w : world W) :
  calls (get_file_metadata service file_id w).2
  = calls w ++ [CGet file_id metadata_fields].
Proof.
  unfold get_file_metadata. rewrite except_http_state, bind_unfold.
  unfold request_get.
  by destruct (files_get service file_id metadata_fields (remote w)) as [[r | e] rem].
Qed.

Lemma export_lookups (file_id mime : string) (w : world W) :
  lookups (calls (except_http
                    (content ← request_export service file_id mime;
                     mret (Some content)) w).2)
  = lookups (calls w).
Proof.
  rewrite except_http_state, bind_unfold. unfold request_export.
  destruct (files_export_media service file_id mime (remote w)) as [[r | e] rem];
    simpl; rewrite lookups_app; simpl; by rewrite app_nil_r.
Qed.

(** Reading one identifier sends exactly one metadata request, for that
    identifier, however the reading ends. *)
Lemma read_file_content_lookups (file_id : string) (w : world W) :
  lookups (calls (read_file_content service file_id w).2)
  = lookups (calls w) ++ [file_id].
Proof.
  pose proof (get_file_metadata_calls file_id w) as Hmeta.
  unfold read_file_content. rewrite bind_unfold.
  destruct (get_file_metadata service file_id w) as [[metadata | e |] w1];
    simpl in Hmeta; simpl.
  - assert (Hw1 : lookups (calls w1) = lookups (calls w) ++ [file_id])
      by (by rewrite Hmeta, lookups_app).
    destruct (negb (truthy_opt_dict metadata)); [done|].
    rewrite bind_unfold.
    repeat case_decide.
    + pose proof (export_lookups file_id "text/plain" w1) as Hex.
      fold (read_google_doc service file_id) in Hex.
      destruct (read_google_doc service file_id w1) as [[c | e |] w2];
        simpl in *; by rewrite Hex.
    + pose proof (export_lookups file_id "text/csv" w1) as Hex.
      fold (read_google_sheet service file_id) in Hex.
      destruct (read_google_sheet service file_id w1) as [[c | e |] w2];
        simpl in *; by rewrite Hex.
    + done.
  - by rewrite Hmeta, lookups_app.
  - by rewrite Hmeta, lookups_app.
Qed.

Lemma resolve_name_run (fid : string) (idmap : gmap string value) (w : world W) :
  resolve_name service fid (idmap, w)
  = match read_file_content service fid w with
    | (Ok item, w1) => (Ok tt, (<[fid := item.1]> idmap, w1))
    | (Raise e, w1) => (Raise e, (idmap, w1))
    | (Diverge, w1) => (Diverge, (idmap, w1))
    end.
Proof.
  unfold resolve_name. rewrite bind_unfold. unfold with_local. simpl.
  by destruct (read_file_content service fid w) as [[[filename content] | e |] w1].
Qed.

Lemma names_loop_lookups (ids : list string) :
  ∀ (idmap idmap' : gmap string value) (w w' : world W),
    names_loop service ids (idmap, w) = (Ok tt, (idmap', w')) →
    lookups (calls w') = lookups (calls w) ++ ids
    ∧ dom idmap' = dom idmap ∪ list_to_set ids.
Proof.
  unfold names_loop.
  induction ids as [|fid rest IH]; intros idmap idmap' w w'; simpl.
  - intros [= <- <-]. rewrite app_nil_r. split; [done|].
    by rewrite (right_id_L ∅ (∪)).
  - rewrite bind_unfold, resolve_name_run.
    pose proof (read_file_content_lookups fid w) as Hlook.
    destruct (read_file_content service fid w) as [[item | e |] w1];
      simpl in *; try discriminate.
    intros Hrun. apply IH in Hrun as [Hl Hd].
    split.
    + by rewrite Hl, Hlook, <- app_assoc.
    + rewrite Hd, dom_insert_L.
      by rewrite (comm_L (∪) {[fid]} (dom idmap)), (assoc_L (∪)).
Qed.

(** C2, as the code has it. [get_idmap] sends one metadata lookup per
    record of the batch: the lookups are the first parents of the
    records, last record first, so that a parent shared by N records is
    looked up N times; the map has one entry per distinct parent.
    [map_ids_to_names] sends one lookup per element of its argument, in
    order: one per identifier when the identifiers are distinct. *)
Theorem attribution_lookups_per_element (w : world W) :
  (∀ shared_files idmap w',
     get_idmap service shared_files w = (Ok idmap, w') →
     ∃ parents,
       Forall2 (λ file p, first_parent file = Ok p) shared_files parents
       ∧ lookups (calls w') = lookups (calls w) ++ reverse parents
       ∧ dom idmap = list_to_set parents)
  ∧ (∀ distinct_ids idmap w',
       map_ids_to_names service distinct_ids w = (Ok idmap, w') →
       lookups (calls w') = lookups (calls w) ++ distinct_ids
       ∧ dom idmap = list_to_set distinct_ids).
Proof.
  split.
  - intros shared_files idmap w' Hrun. unfold get_idmap in Hrun.
    apply bind_ok in Hrun as (pids & w1 & Hp & Hrun).
    apply lift_outcome_ok in Hp as [Hp ->].
    apply parents_loop_spec in Hp as (parents & Hall & ->).
    rewrite app_nil_r in Hrun. exists parents. split; [done|].
    unfold run_local in Hrun.
    destruct (names_loop service (reverse parents) (∅, w)) as [[[] | e |] [m w2]] eqn:Hloop;
      try discriminate.
    simpl in Hrun. injection Hrun as <- <-.
    apply names_loop_lookups in Hloop as [Hl Hd]. split; [done|].
    apply set_eq. intros x.
    rewrite Hd, dom_empty_L, elem_of_union, !elem_of_list_to_set, elem_of_reverse.
    split; [intros [Hx | Hx]; [by apply elem_of_empty in Hx | done] | by right].
  - intros ids idmap w' Hrun. unfold map_ids_to_names, run_local in Hrun.
    destruct (names_loop service ids (∅, w)) as [[[] | e |] [m w2]] eqn:Hloop;
      try discriminate.
    simpl in Hrun. injection Hrun as <- <-.
    apply names_loop_lookups in Hloop as [Hl Hd]. split; [done|].
    apply set_eq. intros x. rewrite Hd, dom_empty_L, elem_of_union.
    split; [intros [Hx | Hx]; [by apply elem_of_empty in Hx | done] | by right].
Qed.

End AttributionLookups.

(** C2 fails on a batch of two records that share the parent [P]:
    [get_idmap] looks [P] up twice, once per record. *)
Lemma get_idmap_looks_up_shared_parent_twice :
  Forall (λ file, first_parent file = Ok "P") Fixtures.shared_batch
  ∧ (get_idmap Fixtures.reader_drive Fixtures.shared_batch Fixtures.start).1
    = Ok {[ "P" := VStr "Irene" ]}
  ∧ lookups (calls (get_idmap Fixtures.reader_drive Fixtures.shared_batch
                      Fixtures.start).2)
    = ["P"; "P"].
Proof.
  split; [repeat constructor|]. split; vm_compute; reflexivity.
Qed.

(** C2 as amended, on the distinct identifiers [P] and [doc]: one lookup
    for each, in order. *)
Lemma attribution_lookups_per_element_witness :
  lookups (calls (map_ids_to_names Fixtures.reader_drive ["P"; "doc"] Fixtures.start).2)
  = lookups (calls Fixtures.start) ++ ["P"; "doc"]
  ∧ dom (<["P" := VStr "Irene"]> (<["doc" := VStr "Plan"]> (∅ : gmap string value)))
    = list_to_set ["P"; "doc"].
Proof.
  apply (proj2 (attribution_lookups_per_element Fixtures.reader_drive Fixtures.start)
           ["P"; "doc"]
           (<["P" := VStr "Irene"]> (<["doc" := VStr "Plan"]> ∅))
           (map_ids_to_names Fixtures.reader_drive ["P"; "doc"] Fixtures.start).2).
  vm_compute. reflexivity.
Defined.

(** ** Attribution in the persisted store *)

Section Relabel.
Context (idmap : gmap string value).


Lemma parents_0_is_set_label (fid : string) (label : option value) (doc : dict) :
  parents_0_is fid (set_label label doc) = parents_0_is fid doc.
Proof.
  destruct label as [v|]; [|done]. unfold parents_0_is. simpl.
  by rewrite lookup_insert_ne.
Qed.

Lemma set_label_twice (v : value) (label : option value) (doc : dict) :
  <["created_by" := v]> (set_label label doc) = set_label (Some v) doc.
Proof. destruct label as [u|]; simpl; [apply insert_insert_eq | done]. Qed.

Lemma relabel_set_label (ids : list string) :
  ∀ (doc : dict) (cur : option value),
    relabel idmap ids (set_label cur doc) = set_label (last_label idmap ids doc cur) doc.
Proof.
  induction ids as [|fid rest IH]; intros doc cur; simpl; [done|].
  destruct (idmap !! fid) as [name|]; [|done].
  rewrite parents_0_is_set_label.
  destruct (parents_0_is fid doc); [|apply IH].
  rewrite set_label_twice. apply IH.
Qed.

Lemma last_label_from (ids : list string) :
  ∀ (doc : dict) (cur : option value),
    last_label idmap ids doc cur
    = match last_label idmap ids doc None with Some v => Some v | None => cur end.
Proof.
  induction ids as [|fid rest IH]; intros doc cur; simpl; [done|].
  destruct (idmap !! fid) as [name|]; [|done].
  destruct (parents_0_is fid doc); [|apply IH].
  rewrite (IH doc (Some name)).
  by destruct (last_label idmap rest doc None).
Qed.

Lemma relabel_idempotent (ids : list string) (doc : dict) :
  relabel idmap ids (relabel idmap ids doc) = relabel idmap ids doc.
Proof.
  rewrite (relabel_set_label ids doc None : relabel idmap ids doc = _).
  rewrite relabel_set_label, last_label_from.
  by destruct (last_label idmap ids doc None).
Qed.

Lemma update_created_by_in_mongo_run (ids : list string) :
  ∀ docs : list dict,
    update_created_by_in_mongo ids idmap docs
    = (relabel_outcome idmap ids, relabel idmap ids <$> docs).
Proof.
  unfold update_created_by_in_mongo.
  induction ids as [|fid rest IH]; intros docs; simpl.
  - by rewrite list_fmap_id.
  - rewrite bind_unfold. destruct (idmap !! fid) as [name|]; simpl.
    + rewrite IH. f_equal. rewrite <- list_fmap_compose. done.
    + by rewrite list_fmap_id.
Qed.

(** C9. For every map and every state of the store, a second run of
    [update_created_by_in_mongo] with the same arguments ends as the
    first one did and leaves the store as the first run left it. *)
Theorem update_created_by_idempotent (distinct_ids : list string) (docs : list dict) :
  update_created_by_in_mongo distinct_ids idmap
    (update_created_by_in_mongo distinct_ids idmap docs).2
  = update_created_by_in_mongo distinct_ids idmap docs.
Proof.
  rewrite !update_created_by_in_mongo_run. simpl. f_equal.
  rewrite <- list_fmap_compose. apply list_fmap_ext.
  intros i doc _. apply relabel_idempotent.
Qed.

End Relabel.

(** The labels applied to a collection of three documents. *)
Example update_created_by_in_mongo_labels :
  update_created_by_in_mongo ["P"; "Q"] Fixtures.owner_labels Fixtures.recordings
  = (Ok tt, Fixtures.labelled_recordings).
Proof. vm_compute. reflexivity. Qed.

(** C9, on that collection: the second run changes nothing. *)
Lemma update_created_by_idempotent_witness :
  update_created_by_in_mongo ["P"; "Q"] Fixtures.owner_labels Fixtures.labelled_recordings
  = (Ok tt, Fixtures.labelled_recordings).
Proof.
  pose proof (update_created_by_idempotent Fixtures.owner_labels ["P"; "Q"]
                Fixtures.recordings) as Hrun.
  rewrite update_created_by_in_mongo_labels in Hrun. exact Hrun.
Defined.

(** ** Joining the fetched contents to the records *)


Lemma with_content_frame (d : dict) (fetched : value * value) (k : string) :
  k ≠ "content" → with_content d fetched !! k = d !! k.
Proof.
  intros Hk. unfold with_content. case_decide; [|done]. by rewrite lookup_insert_ne.
Qed.

Section AddContents.
Context (collected_files : list loc) (c_files_shared : list (value * value)).


Lemma heap_after_same (h : heap) (l : loc) (fetched : value * value) :
  heap_after h l fetched l = with_content (h l) fetched.
Proof.
  unfold heap_after, with_content. case_decide; [|done]. apply fn_lookup_insert.
Qed.

Lemma heap_after_other (h : heap) (l l' : loc) (fetched : value * value) :
  l ≠ l' → heap_after h l fetched l' = h l'.
Proof.
  intros Hne. unfold heap_after. case_decide; [|done]. by apply fn_lookup_insert_ne.
Qed.

Lemma heap_after_frame (h : heap) (l l' : loc) (fetched : value * value) (k : string) :
  k ≠ "content" → heap_after h l fetched l' !! k = h l' !! k.
Proof.
  intros Hk. destruct (decide (l = l')) as [<- | Hne].
  - rewrite heap_after_same. by apply with_content_frame.
  - by rewrite heap_after_other.
Qed.

Lemma add_contents_at_run (i : nat) (l : loc) (fetched : value * value) (h : heap) :
  collected_files !! i = Some l →
  c_files_shared !! i = Some fetched →
  is_Some (h l !! "name") →
  add_contents_at collected_files c_files_shared i h
  = (Ok tt, heap_after h l fetched).
Proof.
  intros Hl Hf [name Hname]. unfold add_contents_at. rewrite Hl.
  rewrite bind_unfold. unfold get_state at 1. rewrite Hname, Hf.
  destruct fetched as [n c]. unfold heap_after. rewrite Hname. simpl.
  case_decide as Heq.
  - subst. by rewrite decide_True.
  - by rewrite decide_False by congruence.
Qed.

(** Whatever its outcome, a turn of the loop changes no field of any
    record other than [content]. *)
Lemma add_contents_at_frame (i : nat) (h : heap) (l : loc) (k : string) :
  k ≠ "content" →
  (add_contents_at collected_files c_files_shared i h).2 l !! k = h l !! k.
Proof.
  intros Hk. unfold add_contents_at.
  destruct (collected_files !! i) as [li|]; [|done].
  rewrite bind_unfold. unfold get_state at 1.
  destruct (h li !! "name") as [name|]; [|done].
  destruct (c_files_shared !! i) as [[n c]|]; [|done].
  case_decide; [|done]. simpl.
  destruct (decide (li = l)) as [-> | Hne].
  - rewrite fn_lookup_insert. by rewrite lookup_insert_ne.
  - by rewrite fn_lookup_insert_ne.
Qed.

Lemma add_contents_loop_frame (indices : list nat) :
  ∀ (h : heap) (l : loc) (k : string),
    k ≠ "content" →
    (for_each indices (add_contents_at collected_files c_files_shared) h).2 l !! k
    = h l !! k.
Proof.
  induction indices as [|i rest IH]; intros h l k Hk; simpl; [done|].
  rewrite bind_unfold.
  pose proof (add_contents_at_frame i h l k Hk) as Hstep.
  destruct (add_contents_at collected_files c_files_shared i h) as [[[] | e |] h1];
    simpl in *; [|done|done].
  by rewrite IH.
Qed.

(** The loop from the index [a] on, over records that are distinct
    objects and all carry a name. *)
Lemma add_contents_loop_run (n : nat) :
  ∀ (a : nat) (h : heap),
    NoDup collected_files →
    (a + n)%nat = length collected_files →
    length collected_files = length c_files_shared →
    (∀ l, l ∈ collected_files → is_Some (h l !! "name")) →
    ∃ h',
      for_each (seq a n) (add_contents_at collected_files c_files_shared) h = (Ok tt, h')
      ∧ (∀ (i : nat) l fetched,
           (a ≤ i)%nat → collected_files !! i = Some l →
           c_files_shared !! i = Some fetched →
           h' l = with_content (h l) fetched)
      ∧ (∀ l, (∀ i : nat, (a ≤ i)%nat → collected_files !! i ≠ Some l) → h' l = h l).
Proof.
  induction n as [|n IH]; intros a h Hnd Hlen Hlens Hnames; simpl.
  - exists h. split_and!; [done | | done].
    intros i l fetched Hi Hl _. apply lookup_lt_Some in Hl. lia.
  - destruct (lookup_lt_is_Some_2 collected_files a ltac:(lia)) as [la Hla].
    destruct (lookup_lt_is_Some_2 c_files_shared a ltac:(lia)) as [fa Hfa].
    rewrite bind_unfold.
    rewrite (add_contents_at_run a la fa h Hla Hfa)
      by (apply Hnames; by eapply list_elem_of_lookup_2).
    destruct (IH (S a) (heap_after h la fa)) as (h' & Hrun & Hlisted & Hother);
      [done | lia | done | |].
    { intros l Hl. destruct (decide (la = l)) as [<- | Hne].
      - rewrite heap_after_frame by done. by apply Hnames.
      - rewrite heap_after_other by done. by apply Hnames. }
    exists h'. split_and!; [done | |].
    + intros i l fetched Hi Hl Hf.
      destruct (decide (i = a)) as [-> | Hia].
      * assert (l = la) as -> by congruence. assert (fetched = fa) as -> by congruence.
        rewrite Hother; [apply heap_after_same|].
        intros j Hj Hlj. pose proof (NoDup_lookup _ _ _ _ Hnd Hla Hlj). lia.
      * rewrite (Hlisted i l fetched) by (done || lia).
        rewrite heap_after_other; [done|].
        intros ->. pose proof (NoDup_lookup _ _ _ _ Hnd Hla Hl). lia.
    + intros l Hl. rewrite Hother.
      * apply heap_after_other. intros ->. by apply (Hl a).
      * intros i Hi. apply Hl. lia.
Qed.

End AddContents.

(** C10. For lists of the same length over distinct record objects that
    carry a name, [add_contents_to_files] returns the list it was
    given; the record at position [i] gets the fetched content when its
    name equals the fetched name and is left as it was, its [content]
    still absent if it was, when the names differ; and no field other
    than [content] of any record is modified. *)
Theorem add_contents_only_on_matching_name (collected_files : list loc)
    (c_files_shared : list (value * value)) (h : heap) :
  NoDup collected_files →
  length collected_files = length c_files_shared →
  (∀ l, l ∈ collected_files → is_Some (h l !! "name")) →
  ∃ h',
    add_contents_to_files collected_files c_files_shared h = (Ok collected_files, h')
    ∧ (∀ (i : nat) l fetched,
         collected_files !! i = Some l →
         c_files_shared !! i = Some fetched →
         (h l !! "name" = Some fetched.1 → h' l = <["content" := fetched.2]> (h l))
         ∧ (h l !! "name" ≠ Some fetched.1 → h' l = h l))
    ∧ (∀ l k, k ≠ "content" → h' l !! k = h l !! k).
Proof.
  intros Hnd Hlen Hnames.
  destruct (add_contents_loop_run collected_files c_files_shared
              (length collected_files) 0 h Hnd eq_refl Hlen Hnames)
    as (h' & Hrun & Hlisted & _).
  exists h'. split_and!.
  - unfold add_contents_to_files. rewrite bind_unfold, Hrun. done.
  - intros i l fetched Hl Hf.
    rewrite (Hlisted i l fetched) by (done || lia).
    unfold with_content. split; intros Hname.
    + by rewrite decide_True.
    + by rewrite decide_False.
  - intros l k Hk.
    pose proof (add_contents_loop_frame collected_files c_files_shared
                  (seq 0 (length collected_files)) h l k Hk) as Hframe.
    by rewrite Hrun in Hframe.
Qed.

(** C10, on a batch of two records: the first gets its content, the
    second, for which nothing was fetched, is left as it was. *)
Lemma add_contents_only_on_matching_name_witness :
  ∃ h',
    add_contents_to_files [0%nat; 1%nat] Fixtures.batch_fetched Fixtures.batch_heap
    = (Ok [0%nat; 1%nat], h')
    ∧ h' 0%nat = <["content" := VStr "minutes of Monday"]> (Fixtures.batch_heap 0%nat)
    ∧ h' 1%nat = Fixtures.batch_heap 1%nat.
Proof.
  destruct (add_contents_only_on_matching_name [0%nat; 1%nat] Fixtures.batch_fetched
              Fixtures.batch_heap)
    as (h' & Hrun & Hat & _).
  - apply NoDup_cons_2; [|apply NoDup_singleton].
    intros Hin. apply list_elem_of_singleton in Hin. discriminate.
  - reflexivity.
  - intros l Hl. apply elem_of_cons in Hl as [-> | Hl].
    + by eexists.
    + apply list_elem_of_singleton in Hl as ->. by eexists.
  - exists h'. split; [exact Hrun|]. split.
    + apply (Hat 0%nat 0%nat (VStr "Monday.gdoc", VStr "minutes of Monday")); reflexivity.
    + apply (Hat 1%nat 1%nat (VNone, VNone)); [reflexivity | reflexivity | discriminate].
Defined.

(** * Further properties of the pipeline *)

(** ** What a computation sends and how it can fail *)

Section Emission.
Context {S : Type} (π : S → list call) (P : call → Prop).

Lemma emits_ret {A} (a : A) : emits π P (mret a : M S A).
Proof. intros s. exists []. by rewrite app_nil_r. Qed.

Lemma emits_raise {A} (e : exn) : emits π P (raise e : M S A).
Proof. intros s. exists []. by rewrite app_nil_r. Qed.

Lemma emits_diverge {A} : emits π P (diverge : M S A).
Proof. intros s. exists []. by rewrite app_nil_r. Qed.

Lemma emits_lift_outcome {A} (o : outcome A) : emits π P (lift_outcome o : M S A).
Proof. intros s. exists []. by rewrite app_nil_r. Qed.

Lemma emits_bind {A B} (m : M S A) (k : A → M S B) :
  emits π P m → (∀ a, emits π P (k a)) → emits π P (m ≫= k).
Proof.
  intros Hm Hk s. rewrite bind_unfold. destruct (Hm s) as (e1 & H1 & HP1).
  destruct (m s) as [[a | e |] s1]; simpl in *; [|by exists e1|by exists e1].
  destruct (Hk a s1) as (e2 & H2 & HP2). exists (e1 ++ e2). split.
  - by rewrite H2, H1, app_assoc.
  - by apply Forall_app.
Qed.

Lemma emits_try_except {A} (body : M S A) (handler : exn → M S A) :
  emits π P body → (∀ e, emits π P (handler e)) → emits π P (try_except body handler).
Proof.
  intros Hb Hh s. unfold try_except. destruct (Hb s) as (e1 & H1 & HP1).
  destruct (body s) as [[a | e |] s1]; simpl in *; [by exists e1| |by exists e1].
  destruct (Hh e s1) as (e2 & H2 & HP2). exists (e1 ++ e2). split.
  - by rewrite H2, H1, app_assoc.
  - by apply Forall_app.
Qed.

Lemma emits_for_each {A} (l : list A) (body : A → M S unit) :
  (∀ x, x ∈ l → emits π P (body x)) → emits π P (for_each l body).
Proof.
  induction l as [|x l IH]; intros Hbody; simpl.
  - apply emits_ret.
  - apply emits_bind; [apply Hbody; left|]. intros _. apply IH.
    intros y Hy. apply Hbody. by right.
Qed.

End Emission.

Lemma emits_weaken {S A} (π : S → list call) (P Q : call → Prop) (m : M S A) :
  (∀ c, P c → Q c) → emits π P m → emits π Q m.
Proof.
  intros HPQ Hm s. destruct (Hm s) as (extra & H & HP). exists extra. split; [done|].
  eapply list.Forall_impl; [exact HP | exact HPQ].
Qed.

Section Failure.
Context {S : Type} (E : exn → Prop).

Lemma raises_only_ret {A} (a : A) : raises_only E (mret a : M S A).
Proof. intros s e H. discriminate. Qed.

Lemma raises_only_diverge {A} : raises_only E (diverge : M S A).
Proof. intros s e H. discriminate. Qed.

Lemma raises_only_raise {A} (e : exn) : E e → raises_only E (raise e : M S A).
Proof. intros He s e' [= <-]. done. Qed.

Lemma raises_only_bind {A B} (m : M S A) (k : A → M S B) :
  raises_only E m → (∀ a, raises_only E (k a)) → raises_only E (m ≫= k).
Proof.
  intros Hm Hk s e. rewrite bind_unfold. specialize (Hm s).
  destruct (m s) as [[a | e' |] s1]; simpl in *.
  - apply Hk.
  - intros [= <-]. by apply Hm.
  - discriminate.
Qed.

Lemma raises_only_try_except {A} (body : M S A) (handler : exn → M S A) :
  (∀ e, raises_only E (handler e)) → raises_only E (try_except body handler).
Proof.
  intros Hh s e. unfold try_except.
  destruct (body s) as [[a | e' |] s1]; simpl; [discriminate | apply Hh | discriminate].
Qed.


End Failure.


Section EmissionOfRequests.
Context {W : Type} (service : drive W) (P : call → Prop).

Lemma emits_request_list (req : list_request) :
  P (CList req) → emits calls P (request_list service req).
Proof.
  intros HP w. exists [CList req]. split; [apply request_list_calls|].
  by apply Forall_singleton.
Qed.

Lemma emits_request_get (fileId flds : string) :
  P (CGet fileId flds) → emits calls P (request_get service fileId flds).
Proof.
  intros HP w. exists [CGet fileId flds]. split; [|by apply Forall_singleton].
  unfold request_get. by destruct (files_get service fileId flds (remote w)).
Qed.

Lemma emits_request_export (fileId mime : string) :
  P (CExport fileId mime) → emits calls P (request_export service fileId mime).
Proof.
  intros HP w. exists [CExport fileId mime]. split; [|by apply Forall_singleton].
  unfold request_export. by destruct (files_export_media service fileId mime (remote w)).
Qed.

Lemma emits_with_local {L A} (m : M (world W) A) :
  emits calls P m → emits (@local_calls W L) P (with_local m).
Proof.
  intros Hm [l w]. destruct (Hm w) as (extra & H & HP). exists extra. split; [|done].
  by rewrite with_local_calls.
Qed.

Lemma emits_extend {A} (xs : list A) : emits local_calls P (extend (W:=W) xs).
Proof. intros s. exists []. by rewrite app_nil_r. Qed.

Lemma emits_run_local {L} (init : L) (m : M (L * world W) unit) :
  emits local_calls P m → emits calls P (run_local init m).
Proof.
  intros Hm w. destruct (Hm (init, w)) as (extra & H & HP). exists extra.
  split; [|done]. by rewrite run_local_calls.
Qed.

End EmissionOfRequests.

Section FailureOfRequests.
Context {W : Type} (E : exn → Prop).




Lemma raises_only_run_local {L} (init : L) (m : M (L * world W) unit) :
  raises_only E m → raises_only E (run_local init m).
Proof.
  intros Hm w e. unfold run_local. specialize (Hm (init, w)).
  destruct (m (init, w)) as [[[] | e' |] s1]; simpl in *; try discriminate.
  intros [= <-]. by apply Hm.
Qed.

End FailureOfRequests.

(** ** Discovery: what is sent, what can fail *)

Section DiscoveryEffects.
Context {W D : Type} (service : drive W) (dt : datelib W D).

Lemma emits_search_while (fuel : nat) (query : string) (tok : option string) :
  emits local_calls (is_search_of query) (search_while service fuel query tok).
Proof.
  revert tok. induction fuel as [|fuel IH]; intros tok; simpl.
  - apply emits_diverge.
  - apply emits_bind.
    + unfold search_turn. apply emits_bind.
      * apply emits_with_local, emits_request_list. by exists tok.
      * intros r. apply emits_bind; [apply emits_extend|]. intros _.
        destruct (negb _); apply emits_ret.
    + intros [|tok']; [apply emits_ret | apply IH].
Qed.

Lemma emits_execute_search (fuel : nat) (query : string) (debug : bool) :
  emits calls (is_search_of query) (execute_search service fuel query debug).
Proof.
  apply emits_run_local, emits_try_except.
  - apply emits_search_while.
  - intros e. apply emits_ret.
Qed.


(** Every request of [execute_search] is a search for the query it was
    given, with the fields and the page size of the function: it sends
    no other query, no metadata request and no export. *)
Theorem execute_search_sends_only_its_query (fuel : nat) (query : string)
    (debug : bool) (w : world W) :
  ∃ extra,
    calls (execute_search service fuel query debug w).2 = calls w ++ extra
    ∧ Forall (λ c, ∃ tok,
                c = CList {| q := query; fields := search_fields;
                             pageToken := tok; pageSize := Some 1000%nat |}) extra.
Proof. apply emits_execute_search. Qed.

Lemma emits_subfolders_while (recurse : string → M (world W) (list string))
    (fuel : nat) (f : string) (tok : option string) :
  (∀ fid, emits calls is_subfolder_listing (recurse fid)) →
  emits local_calls is_subfolder_listing (subfolders_while service recurse fuel f tok).
Proof.
  intros Hrec. revert tok. induction fuel as [|fuel IH]; intros tok; simpl.
  - apply emits_diverge.
  - apply emits_bind.
    + unfold subfolders_turn. apply emits_try_except.
      * apply emits_bind.
        { apply emits_with_local, emits_request_list. by exists f, tok. }
        intros r. apply emits_bind.
        -- apply emits_for_each. intros folder _. unfold descend.
           apply emits_bind; [apply emits_lift_outcome|]. intros fid.
           apply emits_bind; [apply emits_extend|]. intros _.
           apply emits_bind; [apply emits_with_local, Hrec|]. intros below.
           apply emits_extend.
        -- intros _. destruct (negb _); apply emits_ret.
      * intros e. apply emits_ret.
    + intros [|tok']; [apply emits_ret | apply IH].
Qed.

Lemma emits_get_all_subfolders (fuel : nat) (f : string) :
  emits calls is_subfolder_listing (get_all_subfolders service fuel f).
Proof.
  revert f. induction fuel as [|fuel IH]; intros f; simpl.
  - apply emits_diverge.
  - apply emits_run_local, emits_subfolders_while, IH.
Qed.

Lemma subfolders_while_never_raises (recurse : string → M (world W) (list string))
    (fuel : nat) (f : string) (tok : option string) :
  raises_only (λ _, False) (subfolders_while service recurse fuel f tok).
Proof.
  revert tok. induction fuel as [|fuel IH]; intros tok; simpl.
  - apply raises_only_diverge.
  - apply raises_only_bind.
    + unfold subfolders_turn. apply raises_only_try_except.
      intros e. apply raises_only_ret.
    + intros [|tok']; [apply raises_only_ret | apply IH].
Qed.

Lemma get_all_subfolders_never_raises (fuel : nat) (f : string) :
  raises_only (λ _, False) (get_all_subfolders service fuel f).
Proof.
  destruct fuel as [|fuel]; simpl.
  - apply raises_only_diverge.
  - apply raises_only_run_local, subfolders_while_never_raises.
Qed.

(** [get_all_subfolders] never ends in an exception, whatever the store
    answers and whatever the records of a listing look like; and it
    sends nothing but requests for the folders under a folder. *)
Theorem get_all_subfolders_swallows_failures (fuel : nat) (f : string) (w : world W) :
  (∀ e, (get_all_subfolders service fuel f w).1 ≠ Raise e)
  ∧ ∃ extra,
      calls (get_all_subfolders service fuel f w).2 = calls w ++ extra
      ∧ Forall (λ c, ∃ parent tok,
                  c = CList {| q := subfolder_query parent; fields := subfolder_fields;
                               pageToken := tok; pageSize := None |}) extra.
Proof.
  split.
  - intros e He. by apply (get_all_subfolders_never_raises fuel f w e).
  - apply emits_get_all_subfolders.
Qed.

(** [verify_folder_access] never raises and sends exactly one metadata
    request, for the folder it was given; when that request raises, of
    whatever kind the exception, it returns [None]. *)
Theorem verify_folder_access_one_request (fid : string) (w : world W) :
  ∃ info rem',
    verify_folder_access service fid w
    = (Ok info, {| remote := rem'; calls := calls w ++ [CGet fid verify_fields] |})
    ∧ ((∃ e, (files_get service fid verify_fields (remote w)).1 = Fault e) → info = None).
Proof.
  destruct (files_get service fid verify_fields (remote w)) as [[m | e] rem'] eqn:Hget.
  - exists (Some m), rem'. split; [by eapply verify_folder_access_answer|].
    simpl. intros [e He]. discriminate.
  - exists None, rem'. split; [by eapply verify_folder_access_fault|]. done.
Qed.

End DiscoveryEffects.

Section DiscoveryRequests.
Context {W D : Type} (service : drive W) (dt : datelib W D).

Lemma emits_ret_bind {S A B} (π : S → list call) (P : call → Prop) (a : A)
    (k : A → M S B) :
  emits π P (k a) → emits π P (mret a ≫= k).
Proof. intros Hk s. rewrite ret_bind. apply Hk. Qed.

Lemma emits_get_state {S} (π : S → list call) (P : call → Prop) :
  emits π P (get_state : M S S).
Proof. intros s. exists []. by rewrite app_nil_r. Qed.

Lemma emits_from_bind {S A B} (π : S → list call) (P : call → Prop)
    (m : M S A) (k : A → M S B) (s : S) :
  emits_from π P m s → (∀ a, emits π P (k a)) → emits_from π P (m ≫= k) s.
Proof.
  intros (extra1 & Hlog1 & Hall1) Hk. unfold emits_from. rewrite bind_unfold.
  destruct (m s) as [[a | e |] s1]; simpl in *; [|by exists extra1 ..].
  destruct (Hk a s1) as (extra2 & Hlog2 & Hall2).
  exists (extra1 ++ extra2). split; [|by apply Forall_app].
  by rewrite Hlog2, Hlog1, <- app_assoc.
Qed.






Lemma emits_verify_folder_access (fid : string) (P : call → Prop) :
  P (CGet fid verify_fields) → emits calls P (verify_folder_access service fid).
Proof.
  intros HP. apply emits_try_except.
  - apply emits_bind; [by apply emits_request_get|]. intros m. apply emits_ret.
  - intros e. apply emits_ret.
Qed.

Lemma emits_folder_searches (P : call → Prop) (fuel : nat) (folders : list string)
    (debug : bool) (query_of : string → string) :
  (∀ query c, is_search_of query c → P c) →
  emits calls P
    (run_local []
       (for_each folders (λ fid,
          results ← with_local (execute_search service fuel (query_of fid) debug);
          extend results))).
Proof.
  intros HP. apply emits_run_local, emits_for_each. intros fid _.
  apply emits_bind; [|intros results; apply emits_extend].
  apply emits_with_local. eapply emits_weaken; [|apply emits_execute_search].
  intros c. apply HP.
Qed.


(** The requests of [gather_results], branch by branch: the metadata of
    a given root, subfolder listings when the search is recursive,
    searches scoped to a folder (the root alone when the search is not
    recursive), and unscoped searches when no folder is given. *)
Lemma emits_gather_results (P : call → Prop) (fuel : nat) (req : filter_request D)
    (w : world W) :
  (∀ fid, folder_id req = Some fid → truthy_str fid = true →
     P (CGet fid verify_fields)) →
  (∀ fid, folder_id req = Some fid → truthy_str fid = true → recursive req = true →
     ∀ c, is_subfolder_listing c → P c) →
  (∀ fid f s e c,
     folder_id req = Some fid → truthy_str fid = true →
     (recursive req = false → f = fid) →
     window dt req (remote w) s e →
     is_search_of (folder_search_query (time_field_of (search_type req)) s e f
                     (file_types req) (filename_keywords req)) c →
     P c) →
  (truthy_opt_str (folder_id req) = false →
   ∀ s e c,
     window dt req (remote w) s e →
     is_search_of (drive_search_query (time_field_of (search_type req)) s e
                     (file_types req) (filename_keywords req)) c →
     P c) →
  emits_from calls P (gather_results service dt fuel req) w.
Proof.
  intros Hget Hsub Hfolder Hdrive. unfold emits_from, gather_results.
  rewrite bind_unfold. unfold lift_outcome at 1.
  destruct (parse_date dt (start_date req)) as [sd | err |] eqn:Hsd;
    [| exists []; by rewrite app_nil_r ..].
  rewrite bind_unfold. unfold lift_outcome at 1.
  destruct (parse_date dt (end_date req)) as [ed | err |] eqn:Hed;
    [| exists []; by rewrite app_nil_r ..].
  rewrite bind_unfold. unfold get_state at 1.
  assert (Hwindow :
            window dt req (remote w)
              (strftime dt (default (minus_days dt (default (now dt (remote w)) ed) 7) sd)
                 "%Y-%m-%dT00:00:00")
              (strftime dt (default (now dt (remote w)) ed) "%Y-%m-%dT23:59:59"))
    by (by exists sd, ed).
  match goal with
  | |- ∃ extra, calls (?m w).2 = _ ∧ _ => enough (Hrest : emits calls P m) by apply Hrest
  end.
  destruct (folder_id req) as [fid|] eqn:Hfid; simpl.
  - destruct (truthy_str fid) eqn:Htruthy.
    + apply emits_bind; [apply emits_verify_folder_access; by apply Hget|].
      intros info. destruct (negb _); [apply emits_ret|].
      destruct (recursive req) eqn:Hrec.
      * apply emits_bind.
        { apply emits_bind; [|intros a; apply emits_ret].
          eapply emits_weaken; [|apply emits_get_all_subfolders]. by apply (Hsub fid). }
        intros folders. apply emits_bind; [|intros a; apply emits_ret].
        apply emits_run_local, emits_for_each. intros f _.
        apply emits_bind; [|intros results; apply emits_extend].
        apply emits_with_local. eapply emits_weaken; [|apply emits_execute_search].
        intros c Hc. eapply (Hfolder fid f); try done.
      * apply emits_ret_bind.
        apply emits_bind; [|intros a; apply emits_ret].
        apply emits_run_local, emits_for_each. intros f Hf.
        apply list_elem_of_singleton in Hf as ->.
        apply emits_bind; [|intros results; apply emits_extend].
        apply emits_with_local. eapply emits_weaken; [|apply emits_execute_search].
        intros c Hc. eapply (Hfolder fid fid); try done.
    + apply emits_bind; [|intros a; apply emits_ret].
      eapply emits_weaken; [|apply emits_execute_search]. intros c. by apply Hdrive.
  - apply emits_bind; [|intros a; apply emits_ret].
    eapply emits_weaken; [|apply emits_execute_search]. intros c. by apply Hdrive.
Qed.


Lemma emits_get_files_in_date_range (P : call → Prop) (fuel : nat)
    (req : filter_request D) (w : world W) :
  emits_from calls P (gather_results service dt fuel req) w →
  emits_from calls P (get_files_in_date_range service dt fuel req) w.
Proof.
  intros Hg. unfold get_files_in_date_range. apply emits_from_bind; [done|].
  intros [all_results|]; [|apply emits_ret].
  apply emits_bind; [apply emits_lift_outcome|]. intros u.
  destruct (truthy_opt_list _); [apply emits_lift_outcome | apply emits_ret].
Qed.

(** A discovery only reads metadata: beyond the one metadata request
    for a given root folder it sends subfolder listings and searches,
    and never an export, whatever the request and the store. *)
Theorem discovery_sends_no_export (fuel : nat) (req : filter_request D) (w : world W) :
  ∃ extra,
    calls (get_files_in_date_range service dt fuel req w).2 = calls w ++ extra
    ∧ Forall (is_discovery_call (folder_id req)) extra
    ∧ Forall (λ c, ∀ fid mime, c ≠ CExport fid mime) extra.
Proof.
  destruct (emits_get_files_in_date_range (is_discovery_call (folder_id req)) fuel req w
              (emits_gather_results (is_discovery_call (folder_id req)) fuel req w
                 ltac:(intros fid Hf _; left; by exists fid)
                 ltac:(intros fid _ _ _ c Hc; right; by left)
                 ltac:(intros fid f s e c _ _ _ _ Hc; right; right; by eexists)
                 ltac:(intros _ s e c _ Hc; right; right; by eexists)))
    as (extra & Hcalls & Hall).
  exists extra. split_and!; [done | done |].
  eapply list.Forall_impl; [exact Hall|].
  intros c [(fid & _ & ->) | [(f & tok & ->) | (query & tok & ->)]] fid' mime; discriminate.
Qed.

(** Without a folder ([folder_id] is [None] or ['']) nothing is verified
    and no folder is listed: every request is an unscoped search built
    from the time field, the window, the types and the keywords of the
    request. *)
Theorem whole_drive_search_is_unscoped (fuel : nat) (req : filter_request D) (w : world W) :
  truthy_opt_str (folder_id req) = false →
  ∃ extra,
    calls (get_files_in_date_range service dt fuel req w).2 = calls w ++ extra
    ∧ Forall (λ c, ∃ s e tok,
                window dt req (remote w) s e
                ∧ c = CList (search_request
                               (drive_search_query (time_field_of (search_type req)) s e
                                  (file_types req) (filename_keywords req)) tok)) extra.
Proof.
  intros Hfalsy. apply emits_get_files_in_date_range, emits_gather_results.
  - intros fid Hfid Htruthy. rewrite Hfid in Hfalsy. simpl in Hfalsy. congruence.
  - intros fid Hfid Htruthy. rewrite Hfid in Hfalsy. simpl in Hfalsy. congruence.
  - intros fid f s e c Hfid Htruthy. rewrite Hfid in Hfalsy. simpl in Hfalsy. congruence.
  - intros _ s e c Hwindow [tok ->]. by exists s, e, tok.
Qed.

(** A search that is not recursive stays in the root: after the
    metadata request for the root, every request is a search scoped to
    the root itself, for the window of the request, and no subfolder is
    listed. *)
Theorem flat_search_stays_in_root (fuel : nat) (req : filter_request D) (w : world W)
    (fid : string) :
  folder_id req = Some fid →
  truthy_str fid = true →
  recursive req = false →
  ∃ extra,
    calls (get_files_in_date_range service dt fuel req w).2 = calls w ++ extra
    ∧ Forall (λ c, c = CGet fid verify_fields
                   ∨ ∃ s e tok,
                       window dt req (remote w) s e
                       ∧ c = CList (search_request
                                      (folder_search_query (time_field_of (search_type req))
                                         s e fid (file_types req) (filename_keywords req))
                                      tok)) extra.
Proof.
  intros Hfid Htruthy Hrec. apply emits_get_files_in_date_range, emits_gather_results.
  - intros fid' Hfid' _. left. congruence.
  - intros fid' _ _ Hrec'. congruence.
  - intros fid' f s e c Hfid' _ Hf Hwindow [tok ->]. right.
    rewrite (Hf Hrec). assert (fid' = fid) as -> by congruence. by exists s, e, tok.
  - intros Hfalsy. rewrite Hfid in Hfalsy. simpl in Hfalsy. congruence.
Qed.



End DiscoveryRequests.

(** A search of the whole drive for files named after [gemini]. *)
Lemma whole_drive_search_is_unscoped_witness :
  ∃ extra,
    calls (get_files_in_date_range Fixtures.pdf_drive Fixtures.iso_dates 3
             Fixtures.unscoped_request Fixtures.start).2
    = calls Fixtures.start ++ extra
    ∧ Forall (λ c, ∃ s e tok,
                window Fixtures.iso_dates Fixtures.unscoped_request tt s e
                ∧ c = CList (search_request
                               (drive_search_query "modifiedTime" s e None (Some ["gemini"]))
                               tok)) extra.
Proof.
  apply (whole_drive_search_is_unscoped Fixtures.pdf_drive Fixtures.iso_dates 3
           Fixtures.unscoped_request Fixtures.start).
  reflexivity.
Defined.

(** A search of the folder [F] alone. *)
Lemma flat_search_stays_in_root_witness :
  ∃ extra,
    calls (get_files_in_date_range Fixtures.pdf_drive Fixtures.iso_dates 3
             Fixtures.flat_request Fixtures.start).2
    = calls Fixtures.start ++ extra
    ∧ Forall (λ c, c = CGet "F" verify_fields
                   ∨ ∃ s e tok,
                       window Fixtures.iso_dates Fixtures.flat_request tt s e
                       ∧ c = CList (search_request
                                      (folder_search_query "createdTime" s e "F" None None)
                                      tok)) extra.
Proof.
  apply (flat_search_stays_in_root Fixtures.pdf_drive Fixtures.iso_dates 3
           Fixtures.flat_request Fixtures.start "F"); reflexivity.
Defined.


(** ** The discovery of the pipeline *)

Lemma append_assoc (a b c : string) : (a +:+ b) +:+ c = a +:+ (b +:+ c).
Proof.
  induction a as [|x a IH]; [done|].
  change (String x ((a +:+ b) +:+ c) = String x (a +:+ (b +:+ c))). by rewrite IH.
Qed.

Lemma gemini_query_built (s e f : string) :
  folder_search_query "createdTime" s e f (Some ["gdoc"]) (Some ["gemini"])
  = gemini_query s e f.
Proof.
  assert (Hparts : type_and_name_parts (Some ["gdoc"]) (Some ["gemini"])
                   = ["(mimeType='application/vnd.google-apps.document')";
                      "(name contains 'gemini')"]) by (vm_compute; reflexivity).
  unfold folder_search_query, gemini_query. rewrite Hparts.
  cbn [date_parts app join]. rewrite !append_assoc. reflexivity.
Qed.

Section Collection.
Context {W D : Type} (service : drive W) (dt : datelib W D).

(** [collect_files] looks for one kind of file only: beyond the
    metadata request for the shared folder and the listings of
    subfolders, every request it sends is a search, scoped to one
    folder, for the Google documents with [gemini] in their name that
    were created between the first second of the start day and the last
    second of the end day. *)
Theorem collect_files_searches_gemini_documents (fuel : nat) (shared_folder_id : string)
    (s_date e_date : date_arg D) (ds de : D) (w : world W) :
  truthy_str shared_folder_id = true →
  parse_date dt s_date = Ok (Some ds) →
  parse_date dt e_date = Ok (Some de) →
  ∃ extra,
    calls (collect_files service dt fuel (Some shared_folder_id) s_date e_date w).2
    = calls w ++ extra
    ∧ Forall (λ c, c = CGet shared_folder_id verify_fields
                   ∨ is_subfolder_listing c
                   ∨ ∃ f tok,
                       c = CList (search_request
                                    (gemini_query (strftime dt ds "%Y-%m-%dT00:00:00")
                                       (strftime dt de "%Y-%m-%dT23:59:59") f) tok))
        extra.
Proof.
  intros Htruthy Hs He. unfold collect_files.
  apply emits_get_files_in_date_range, emits_gather_results; simpl.
  - intros fid [= <-] _. by left.
  - intros fid _ _ _ c Hc. right. by left.
  - intros fid f s e c _ _ _ (sd & ed & Hsd & Hed & -> & ->) [tok ->].
    simpl in Hsd, Hed. rewrite Hs in Hsd. rewrite He in Hed.
    injection Hsd as <-. injection Hed as <-. simpl.
    right. right. exists f, tok. by rewrite <- gemini_query_built.
  - intros Hfalsy. congruence.
Qed.

End Collection.

(** The folder tree of the fixtures, searched for the first half of
    November. *)
Lemma collect_files_searches_gemini_documents_witness :
  ∃ extra,
    calls (collect_files Fixtures.tree_drive Fixtures.iso_dates 5 (Some "F")
             (DateStr "2025-11-01") (DateStr "2025-11-15") Fixtures.start).2
    = calls Fixtures.start ++ extra
    ∧ Forall (λ c, c = CGet "F" verify_fields
                   ∨ is_subfolder_listing c
                   ∨ ∃ f tok,
                       c = CList (search_request
                                    (gemini_query "2025-11-01T00:00:00"
                                       "2025-11-15T23:59:59" f) tok))
        extra.
Proof.
  apply (collect_files_searches_gemini_documents Fixtures.tree_drive Fixtures.iso_dates 5
           "F" (DateStr "2025-11-01") (DateStr "2025-11-15") "2025-11-01" "2025-11-15"
           Fixtures.start); reflexivity.
Defined.

(** ** The query for file types *)

Lemma lower_ascii_idemp (c : ascii) : lower_ascii (lower_ascii c) = lower_ascii c.
Proof.
  destruct c as [[] [] [] [] [] [] [] []]; vm_compute; reflexivity.
Qed.

Lemma lower_idemp (s : string) : lower (lower s) = lower s.
Proof.
  induction s as [|c s IH]; simpl; [done|]. by rewrite lower_ascii_idemp, IH.
Qed.

Lemma truthy_list_fmap {A B} (f : A → B) (l : list A) :
  truthy_list (f <$> l) = truthy_list l.
Proof. by destruct l. Qed.

(** [build_file_type_query] gives no clause exactly for an empty list of
    types, and the letter case of a type tag does not matter: the tags
    lowered give the same query. *)
Theorem build_file_type_query_case_insensitive (file_types : list string) :
  (build_file_type_query file_types = None ↔ file_types = [])
  ∧ build_file_type_query (lower <$> file_types) = build_file_type_query file_types.
Proof.
  unfold build_file_type_query. split.
  - rewrite truthy_list_fmap. destruct file_types as [|t ts]; [done|].
    cbn [truthy_list]. split; discriminate.
  - rewrite <- list_fmap_compose.
    match goal with
    | |- context [(?f ∘ lower) <$> _] =>
        assert (Heq : f ∘ lower <$> file_types = f <$> file_types)
    end.
    { apply list_fmap_ext. intros i t _. unfold compose. cbv beta.
      by rewrite lower_idemp. }
    by rewrite Heq.
Qed.

(** ** The exclusion filter on its own *)

Lemma filename_lower_text (r : dict) :
  name_is_text r → filename_lower r = Ok (lower (record_name r)).
Proof.
  unfold filename_lower, record_name. intros [Hn | [s Hn]]; by rewrite Hn.
Qed.

Lemma filename_lower_not_text (r : dict) :
  ¬ name_is_text r → filename_lower r = Raise AttributeError.
Proof.
  unfold filename_lower, name_is_text. intros Hn.
  destruct (r !! "name") as [[| s | l]|]; try done.
  - exfalso. apply Hn. right. by exists s.
  - exfalso. apply Hn. by left.
Qed.

Lemma filter_loop_run (ks : list string) (files : list dict) :
  ∀ filtered_files,
    filter_loop files ks filtered_files
    = if decide (Forall name_is_text files)
      then Ok (filtered_files ++ filter (λ r, excluded ks r = false) files)
      else Raise AttributeError.
Proof.
  induction files as [|file rest IH]; intros acc; cbn [filter_loop].
  - rewrite decide_True by constructor. by rewrite filter_nil, app_nil_r.
  - destruct (decide (name_is_text file)) as [Htext | Hnot].
    + rewrite (filename_lower_text _ Htext). fold (excluded ks file).
      destruct (excluded ks file) eqn:Hex; rewrite IH.
      * destruct (decide (Forall name_is_text rest)) as [Hrest | Hrest].
        -- rewrite decide_True by (by constructor).
           by rewrite filter_cons_False by (rewrite Hex; discriminate).
        -- rewrite decide_False; [done|]. intros H. apply Hrest. by inversion H.
      * destruct (decide (Forall name_is_text rest)) as [Hrest | Hrest].
        -- rewrite decide_True by (by constructor).
           rewrite filter_cons_True by done. by rewrite <- app_assoc.
        -- rewrite decide_False; [done|]. intros H. apply Hrest. by inversion H.
    + rewrite (filename_lower_not_text _ Hnot).
      rewrite decide_False; [done|]. intros H. apply Hnot. by inversion H.
Qed.

Lemma filter_by_exclude_keywords_run (files : list dict) (k : string) (ks : list string) :
  filter_by_exclude_keywords files (Some (k :: ks))
  = if decide (Forall name_is_text files)
    then Ok (filter (λ r, excluded (k :: ks) r = false) files)
    else Raise AttributeError.
Proof. unfold filter_by_exclude_keywords. by rewrite filter_loop_run. Qed.

(** Filtering twice with the same keywords changes nothing more: what
    [filter_by_exclude_keywords] returns is a fixed point of it. *)
Theorem filter_by_exclude_keywords_idempotent (files out : list dict)
    (exclude_keywords : option (list string)) :
  filter_by_exclude_keywords files exclude_keywords = Ok out →
  filter_by_exclude_keywords out exclude_keywords = Ok out.
Proof.
  destruct exclude_keywords as [[|k ks]|]; try (by intros [= ->]).
  rewrite !filter_by_exclude_keywords_run.
  destruct (decide (Forall name_is_text files)) as [Htext|]; [|discriminate].
  intros [= <-]. rewrite decide_True.
  - f_equal. apply list_filter_filter_l. done.
  - rewrite list.Forall_forall in Htext. apply list.Forall_forall.
    intros r [_ Hr]%list_elem_of_filter. by apply Htext.
Qed.

(** The records kept of the tree, filtered once more. *)
Lemma filter_by_exclude_keywords_idempotent_witness :
  filter_by_exclude_keywords Fixtures.tree_found (Some ["draft"]) = Ok Fixtures.tree_found.
Proof.
  apply (filter_by_exclude_keywords_idempotent
           (Fixtures.record "A" "Draft Report.gdoc" :: Fixtures.tree_found)
           Fixtures.tree_found (Some ["draft"])).
  vm_compute. reflexivity.
Defined.

Lemma contains_empty (s : string) : contains "" s = true.
Proof. by destruct s. Qed.

(** An empty keyword occurs in every name: with [''] among the keywords
    [filter_by_exclude_keywords] returns no record at all. *)
Theorem empty_keyword_excludes_every_record (files out : list dict) (ks : list string) :
  "" ∈ ks →
  filter_by_exclude_keywords files (Some ks) = Ok out →
  out = [].
Proof.
  intros Hin. destruct ks as [|k ks]; [by apply elem_of_nil in Hin|].
  rewrite filter_by_exclude_keywords_run.
  destruct (decide (Forall name_is_text files)); [|discriminate].
  intros [= <-].
  assert (Hall : ∀ r, excluded (k :: ks) r = true).
  { intros r. apply excluded_spec. exists "". split; [done|].
    unfold name_matches. apply contains_spec, contains_empty. }
  clear -Hall. induction files as [|file rest IH]; [done|].
  rewrite filter_cons_False; [done|].
  intros Hkept. change (excluded (k :: ks) file = false) in Hkept.
  rewrite Hall in Hkept. discriminate.
Qed.

(** The records listed in the tree, with an empty keyword beside [draft]. *)
Lemma empty_keyword_excludes_every_record_witness :
  "" ∈ ["draft"; ""]
  ∧ ∃ out, filter_by_exclude_keywords Fixtures.tree_listed (Some ["draft"; ""]) = Ok out
           ∧ out = [].
Proof.
  assert (Hin : "" ∈ ["draft"; ""]) by (right; left).
  split; [done|]. eexists. split; [reflexivity|].
  eapply (empty_keyword_excludes_every_record Fixtures.tree_listed _ ["draft"; ""] Hin).
  reflexivity.
Defined.

(** With keywords given, [filter_by_exclude_keywords] raises exactly
    when some record has a name that is not a string, and the exception
    is then [AttributeError]; without keywords it never looks at a name. *)
Theorem filter_by_exclude_keywords_raises (files : list dict)
    (exclude_keywords : option (list string)) (e : exn) :
  filter_by_exclude_keywords files exclude_keywords = Raise e
  ↔ e = AttributeError
    ∧ truthy_opt_list exclude_keywords = true
    ∧ ¬ Forall name_is_text files.
Proof.
  destruct exclude_keywords as [[|k ks]|].
  - simpl. split; [discriminate | intros (_ & H & _); discriminate].
  - rewrite filter_by_exclude_keywords_run. simpl.
    destruct (decide (Forall name_is_text files)) as [Htext | Hnot].
    + split; [discriminate | intros (_ & _ & H); done].
    + split; [intros [= <-]; done | intros (-> & _ & _); done].
  - simpl. split; [discriminate | intros (_ & H & _); discriminate].
Qed.

(** ** Deduplication on its own *)

Lemma remove_duplicates_loop_ok_ids (all_results : list dict) :
  ∀ seen unique_results out,
    remove_duplicates_loop all_results seen unique_results = Ok out →
    Forall has_hashable_id all_results.
Proof.
  induction all_results as [|file rest IH]; intros seen acc out; simpl; [by constructor|].
  destruct (file !! "id") as [i|] eqn:Hid; [|discriminate].
  destruct (hashable i) eqn:Hh; [|discriminate].
  intros Hrun. constructor; [by exists i|].
  destruct (decide (i ∉ seen)); by eapply IH.
Qed.

Lemma remove_duplicates_loop_distinct (all_results : list dict) :
  ∀ (seen : gset value) unique_results,
    Forall has_hashable_id all_results →
    NoDup ((.!! "id") <$> all_results) →
    (∀ r i, r ∈ all_results → r !! "id" = Some i → i ∉ seen) →
    remove_duplicates_loop all_results seen unique_results
    = Ok (unique_results ++ all_results).
Proof.
  induction all_results as [|file rest IH]; intros seen acc Hids Hnd Hfresh; simpl.
  - by rewrite app_nil_r.
  - inversion Hids as [|? ? (i & Hid & Hh) Hrest]; subst.
    rewrite Hid, Hh. rewrite fmap_cons in Hnd. apply list.NoDup_cons in Hnd as [Hnotin Hnd].
    rewrite decide_True by (apply (Hfresh file i); [left | done]).
    rewrite IH; [by rewrite <- app_assoc | done | done |].
    intros r j Hr Hj. apply not_elem_of_union. split.
    + apply not_elem_of_singleton. intros ->. apply Hnotin.
      apply list_elem_of_fmap. exists r. split; [by rewrite Hj, Hid | done].
    + apply (Hfresh r j); [by right | done].
Qed.

(** A list whose records carry pairwise different identifiers comes out
    of the deduplication as it went in. *)
Theorem remove_duplicates_keeps_distinct (all_results : list dict) :
  Forall has_hashable_id all_results →
  NoDup ((.!! "id") <$> all_results) →
  remove_duplicates all_results = Ok all_results.
Proof.
  intros Hids Hnd. unfold remove_duplicates.
  rewrite remove_duplicates_loop_distinct; [done | done | done |].
  intros r i _ _. apply not_elem_of_empty.
Qed.

(** The two records found in the tree have different identifiers. *)
Lemma remove_duplicates_keeps_distinct_witness :
  remove_duplicates Fixtures.tree_found = Ok Fixtures.tree_found.
Proof.
  apply remove_duplicates_keeps_distinct.
  - repeat constructor; eexists; split; reflexivity.
  - apply (bool_decide_unpack _). vm_compute. exact I.
Defined.

(** Deduplicating twice is deduplicating once. *)
Theorem remove_duplicates_idempotent (all_results out : list dict) :
  remove_duplicates all_results = Ok out →
  remove_duplicates out = Ok out.
Proof.
  intros Hrun. pose proof (remove_duplicates_loop_ok_ids _ _ _ _ Hrun) as Hids.
  apply remove_duplicates_spec in Hrun as (Hsub & Hnd & _ & _).
  unfold remove_duplicates.
  rewrite remove_duplicates_loop_distinct; [done | | done |].
  - rewrite list.Forall_forall in Hids. apply list.Forall_forall.
    intros r Hr. apply Hids. by eapply elem_of_sublist.
  - intros r i _ _. apply not_elem_of_empty.
Qed.

(** The records listed in the tree, deduplicated and deduplicated again. *)
Lemma remove_duplicates_idempotent_witness :
  remove_duplicates [Fixtures.record "X1" "Minutes.gdoc";
                     Fixtures.record "A" "Draft Report.gdoc";
                     Fixtures.record "B" "Report.gdoc"]
  = Ok [Fixtures.record "X1" "Minutes.gdoc";
        Fixtures.record "A" "Draft Report.gdoc";
        Fixtures.record "B" "Report.gdoc"].
Proof.
  apply (remove_duplicates_idempotent Fixtures.tree_listed).
  vm_compute. reflexivity.
Defined.

(** The deduplication returns exactly when every record, duplicates
    included, has an identifier that can be put in a set. *)
Theorem remove_duplicates_returns_iff (all_results : list dict) :
  (∃ out, remove_duplicates all_results = Ok out) ↔ Forall has_hashable_id all_results.
Proof.
  split; [intros [out H]; by eapply remove_duplicates_loop_ok_ids|].
  unfold remove_duplicates. generalize (∅ : gset value) ([] : list dict).
  induction all_results as [|file rest IH]; intros seen acc Hids; simpl; [by eexists|].
  inversion Hids as [|? ? (i & Hid & Hh) Hrest]; subst. rewrite Hid, Hh.
  destruct (decide (i ∉ seen)); by apply IH.
Qed.

(** ** File names for the separate CSV files *)

Lemma replace_char_length (old new : ascii) (s : string) :
  String.length (replace_char old new s) = String.length s.
Proof. induction s as [|c s IH]; simpl; [done | by rewrite IH]. Qed.

Lemma replace_char_chars (old new : ascii) (s : string) (c : ascii) :
  c ∈ String.list_ascii_of_string (replace_char old new s) →
  (c = new ∧ old ∈ String.list_ascii_of_string s)
  ∨ (c ≠ old ∧ c ∈ String.list_ascii_of_string s).
Proof.
  induction s as [|a s IH]; simpl; [by intros H%elem_of_nil|].
  intros [-> | Hc]%elem_of_cons.
  - case_decide as Ha.
    + subst. left. split; [done | left].
    + right. split; [done | left].
  - destruct (IH Hc) as [[-> Hold] | [Hne Hin]].
    + left. split; [done | by right].
    + right. split; [done | by right].
Qed.

(** The name under which a result is written has the length of the file
    name and holds no space, no slash and no backslash. *)
Theorem safe_name_has_no_separator (file_name : string) :
  String.length (safe_name file_name) = String.length file_name
  ∧ ∀ c, c ∈ String.list_ascii_of_string (safe_name file_name) →
         c ≠ " "%char ∧ c ≠ "/"%char ∧ c ≠ "\"%char.
Proof.
  unfold safe_name. split; [by rewrite !replace_char_length|].
  intros c Hc.
  apply replace_char_chars in Hc as [[-> _] | [Hbs Hc]]; [by split_and!|].
  apply replace_char_chars in Hc as [[-> _] | [Hsl Hc]]; [by split_and!|].
  apply replace_char_chars in Hc as [[-> _] | [Hsp Hc]]; [by split_and!|].
  done.
Qed.

(** ** The reader *)

Section ReaderEffects.
Context {W : Type} (service : drive W).

Lemma raises_only_except_http {A} (body : M (world W) (option A)) :
  raises_only (λ e, e ≠ HttpError) (except_http body).
Proof.
  apply raises_only_try_except. intros e.
  destruct (decide (e = HttpError)); [apply raises_only_ret | by apply raises_only_raise].
Qed.

Lemma read_file_content_raises (file_id : string) :
  raises_only (λ e, e ≠ HttpError) (read_file_content service file_id).
Proof.
  unfold read_file_content. apply raises_only_bind; [apply raises_only_except_http|].
  intros metadata. destruct (negb _); [apply raises_only_ret|].
  apply raises_only_bind; [|intros c; apply raises_only_ret].
  repeat case_decide; [| |apply raises_only_ret]; apply raises_only_except_http.
Qed.

(** An [HttpError] of the store never leaves [read_file_content]: the
    exceptions it can end in are the other ones. *)
Theorem read_file_content_swallows_http_errors (file_id : string) (w : world W) (e : exn) :
  (read_file_content service file_id w).1 = Raise e → e ≠ HttpError.
Proof. apply read_file_content_raises. Qed.

Lemma emits_except_http {A} (P : call → Prop) (body : M (world W) (option A)) :
  emits calls P body → emits calls P (except_http body).
Proof.
  intros Hb. apply emits_try_except; [done|]. intros e.
  destruct (decide (e = HttpError)); [apply emits_ret | apply emits_raise].
Qed.

Lemma emits_read_file_content (file_id : string) :
  emits calls (is_read_of file_id) (read_file_content service file_id).
Proof.
  unfold read_file_content. apply emits_bind.
  - apply emits_except_http, emits_bind; [|intros a; apply emits_ret].
    apply emits_request_get. by left.
  - intros metadata. destruct (negb _); [apply emits_ret|].
    apply emits_bind; [|intros c; apply emits_ret].
    repeat case_decide; [| |apply emits_ret];
      apply emits_except_http, emits_bind;
      try (intros a; apply emits_ret); apply emits_request_export; right; by eexists.
Qed.

Lemma emits_read_item (file_id : string) :
  emits local_calls (is_read_of file_id) (read_item service file_id).
Proof.
  unfold read_item. apply emits_try_except.
  - apply emits_bind; [apply emits_with_local, emits_read_file_content|].
    intros [name content]. apply emits_extend.
  - intros e. apply emits_extend.
Qed.

Lemma fetch_each_lookups (file_ids : list string) (w : world W) :
  lookups (calls (fetch_each service file_ids w).2) = lookups (calls w) ++ file_ids.
Proof.
  revert w. induction file_ids as [|fid rest IH]; intros w; simpl.
  - by rewrite app_nil_r.
  - specialize (IH (read_file_content service fid w).2).
    destruct (fetch_each service rest _) as [items w2]. simpl in *.
    by rewrite IH, read_file_content_lookups, <- app_assoc.
Qed.

(** [read_multiple_files] sends one metadata request per identifier, in
    the order of the list, and every request it sends, metadata or
    export, names an identifier of the list. *)
Theorem read_multiple_files_requests (file_ids : list string) (w : world W) :
  ∃ extra,
    calls (read_multiple_files service file_ids w).2 = calls w ++ extra
    ∧ lookups extra = file_ids
    ∧ Forall (λ c, ∃ fid, fid ∈ file_ids
                         ∧ (c = CGet fid metadata_fields ∨ ∃ mime, c = CExport fid mime))
        extra.
Proof.
  assert (Hemits : emits calls (λ c, ∃ fid, fid ∈ file_ids ∧ is_read_of fid c)
                     (read_multiple_files service file_ids)).
  { apply emits_run_local, emits_for_each. intros fid Hfid.
    eapply emits_weaken; [|apply emits_read_item]. intros c Hc. by exists fid. }
  destruct (Hemits w) as (extra & Hcalls & Hall). exists extra. split_and!; [done | | done].
  assert (Hlook : lookups (calls (read_multiple_files service file_ids w).2)
                  = lookups (calls w) ++ file_ids).
  { unfold read_multiple_files, run_local. rewrite for_each_read_item. simpl.
    apply fetch_each_lookups. }
  rewrite Hcalls, lookups_app in Hlook. by apply app_inv_head in Hlook.
Qed.

Lemma fetch_each_app (xs ys : list string) (w : world W) :
  fetch_each service (xs ++ ys) w
  = ((fetch_each service xs w).1
       ++ (fetch_each service ys (fetch_each service xs w).2).1,
     (fetch_each service ys (fetch_each service xs w).2).2).
Proof.
  revert w. induction xs as [|x xs IH]; intros w; simpl.
  - by destruct (fetch_each service ys w).
  - rewrite IH. destruct (fetch_each service xs _) as [items w1]. simpl.
    by destruct (fetch_each service ys w1).
Qed.

Lemma read_multiple_files_run (file_ids : list string) (w : world W) :
  read_multiple_files service file_ids w
  = (Ok (fetch_each service file_ids w).1, (fetch_each service file_ids w).2).
Proof. unfold read_multiple_files, run_local. by rewrite for_each_read_item. Qed.

(** Reading a list in two batches, the second from the state the first
    one left, gives what reading the whole list gives. *)
Theorem read_multiple_files_in_batches (xs ys : list string) (w : world W) :
  ∃ first w1 second w2,
    read_multiple_files service xs w = (Ok first, w1)
    ∧ read_multiple_files service ys w1 = (Ok second, w2)
    ∧ read_multiple_files service (xs ++ ys) w = (Ok (first ++ second), w2).
Proof.
  eexists _, _, _, _. split_and!; [apply read_multiple_files_run .. |].
  by rewrite read_multiple_files_run, fetch_each_app.
Qed.

End ReaderEffects.

Section ReaderDispatch.
Context {W : Type} (service : drive W).

Lemma get_file_metadata_answer (file_id : string) (w : world W) (m : dict) (rem1 : W) :
  files_get service file_id metadata_fields (remote w) = (Answer m, rem1) →
  get_file_metadata service file_id w
  = (Ok (Some m), {| remote := rem1; calls := calls w ++ [CGet file_id metadata_fields] |}).
Proof.
  intros Hget. unfold get_file_metadata, except_http, try_except.
  rewrite bind_unfold. unfold request_get. by rewrite Hget.
Qed.

Lemma export_run (file_id target : string) (w : world W) :
  except_http (content ← request_export service file_id target; mret (Some content)) w
  = match files_export_media service file_id target (remote w) with
    | (Answer text, rem2) =>
        (Ok (Some text),
         {| remote := rem2; calls := calls w ++ [CExport file_id target] |})
    | (Fault e, rem2) =>
        (if decide (e = HttpError) then Ok None else Raise e,
         {| remote := rem2; calls := calls w ++ [CExport file_id target] |})
    end.
Proof.
  unfold except_http, try_except. rewrite bind_unfold. unfold request_export.
  destruct (files_export_media service file_id target (remote w)) as [[text | e] rem2];
    simpl; [done|].
  by destruct (decide (e = HttpError)).
Qed.

(** A Google document is exported as [text/plain] and a Google sheet as
    [text/csv], in one export request after the metadata request.  The
    pair returned holds the name of the metadata (['Unknown'] without
    one) and the exported text; an export refused with [HttpError]
    leaves the content [None], any other failure of the export is
    raised. *)
Theorem read_file_content_exports_by_type (file_id : string) (w : world W)
    (m : dict) (rem1 : W) (mime target : string) :
  files_get service file_id metadata_fields (remote w) = (Answer m, rem1) →
  m !! "mimeType" = Some (VStr mime) →
  (mime = doc_mime ∧ target = "text/plain") ∨ (mime = sheet_mime ∧ target = "text/csv") →
  read_file_content service file_id w
  = match files_export_media service file_id target rem1 with
    | (export, rem2) =>
        (match export with
         | Answer text => Ok (default (VStr "Unknown") (m !! "name"), VStr text)
         | Fault e =>
             if decide (e = HttpError)
             then Ok (default (VStr "Unknown") (m !! "name"), VNone)
             else Raise e
         end,
         {| remote := rem2;
            calls := calls w ++ [CGet file_id metadata_fields; CExport file_id target] |})
    end.
Proof.
  intros Hget Hmime Hkind. unfold read_file_content.
  rewrite bind_unfold, (get_file_metadata_answer _ _ _ _ Hget).
  assert (truthy_opt_dict (Some m) = true) as ->.
  { simpl. unfold truthy_dict. apply bool_decide_eq_true_2. intros ->.
    by rewrite lookup_empty in Hmime. }
  change (negb true) with false. cbv iota.
  change (default ∅ (Some m)) with m. rewrite Hmime.
  change (default (VStr "") (Some (VStr mime))) with (VStr mime).
  rewrite bind_unfold.
  assert (Hlog : ∀ l : list call,
            (l ++ [CGet file_id metadata_fields]) ++ [CExport file_id target]
            = l ++ [CGet file_id metadata_fields; CExport file_id target])
    by (intros l; by rewrite <- app_assoc).
  destruct Hkind as [[-> ->] | [-> ->]].
  - rewrite decide_True by done. unfold read_google_doc. rewrite export_run. simpl.
    destruct (files_export_media service file_id "text/plain" rem1) as [[text | e] rem2];
      simpl; rewrite Hlog; [done|].
    by destruct (decide (e = HttpError)).
  - rewrite decide_False by discriminate. rewrite decide_True by done.
    unfold read_google_sheet. rewrite export_run. simpl.
    destruct (files_export_media service file_id "text/csv" rem1) as [[text | e] rem2];
      simpl; rewrite Hlog; [done|].
    by destruct (decide (e = HttpError)).
Qed.

(** For metadata that is empty, [read_file_content] returns
    [(None, None)]; for a file that is neither a Google document nor a
    Google sheet it returns the name without content.  In both cases
    the metadata request is the only request sent. *)
Theorem read_file_content_without_export (file_id : string) (w : world W)
    (m : dict) (rem1 : W) :
  files_get service file_id metadata_fields (remote w) = (Answer m, rem1) →
  m !! "mimeType" ≠ Some (VStr doc_mime) →
  m !! "mimeType" ≠ Some (VStr sheet_mime) →
  read_file_content service file_id w
  = (Ok (if decide (m = ∅) then (VNone, VNone)
         else (default (VStr "Unknown") (m !! "name"), VNone)),
     {| remote := rem1; calls := calls w ++ [CGet file_id metadata_fields] |}).
Proof.
  intros Hget Hdoc Hsheet. unfold read_file_content.
  rewrite bind_unfold, (get_file_metadata_answer _ _ _ _ Hget).
  destruct (decide (m = ∅)) as [Hm | Hm].
  - assert (truthy_opt_dict (Some m) = false) as ->.
    { simpl. unfold truthy_dict. apply bool_decide_eq_false_2. by intros H. }
    done.
  - assert (truthy_opt_dict (Some m) = true) as ->.
    { simpl. unfold truthy_dict. by apply bool_decide_eq_true_2. }
    change (negb true) with false. cbv iota.
    change (default ∅ (Some m)) with m.
    rewrite bind_unfold.
    rewrite decide_False.
    2:{ intros Heq. apply Hdoc. unfold doc_mime in *.
        destruct (m !! "mimeType"); simpl in Heq; [congruence | discriminate Heq]. }
    rewrite decide_False.
    2:{ intros Heq. apply Hsheet. unfold sheet_mime in *.
        destruct (m !! "mimeType"); simpl in Heq; [congruence | discriminate Heq]. }
    done.
Qed.

End ReaderDispatch.

(** On a metadata request that breaks with another exception than
    [HttpError], the exception is raised. *)
Lemma read_file_content_swallows_http_errors_witness :
  (read_file_content Fixtures.reader_drive "broken" Fixtures.start).1 = Raise OtherError
  ∧ OtherError ≠ HttpError.
Proof.
  split; [reflexivity|].
  apply (read_file_content_swallows_http_errors Fixtures.reader_drive "broken"
           Fixtures.start OtherError).
  reflexivity.
Defined.

(** The document [doc] of the fixtures, exported as text. *)
Lemma read_file_content_exports_by_type_witness :
  read_file_content Fixtures.reader_drive "doc" Fixtures.start
  = (Ok (VStr "Plan", VStr "hello"),
     {| remote := tt;
        calls := [] ++ [CGet "doc" metadata_fields; CExport "doc" "text/plain"] |}).
Proof.
  exact (read_file_content_exports_by_type Fixtures.reader_drive "doc" Fixtures.start
           (Fixtures.named "Plan" doc_mime) tt doc_mime "text/plain"
           eq_refl eq_refl (or_introl (conj eq_refl eq_refl))).
Defined.

(** The PDF of the fixtures: a name, no content, no export. *)
Lemma read_file_content_without_export_witness :
  read_file_content Fixtures.reader_drive "pdf" Fixtures.start
  = (Ok (VStr "scan.pdf", VNone),
     {| remote := tt; calls := [] ++ [CGet "pdf" metadata_fields] |}).
Proof.
  refine (read_file_content_without_export Fixtures.reader_drive "pdf" Fixtures.start
            (Fixtures.named "scan.pdf" "application/pdf") tt eq_refl _ _);
    by vm_compute.
Defined.

(** ** Attribution of the records of a batch *)

Section AddCreatedBy.
Context (collected_files : list loc) (idmap : gmap string value).

Lemma first_parent_created_by (d : dict) (v : value) :
  first_parent (<["created_by" := v]> d) = first_parent d.
Proof. unfold first_parent. by rewrite lookup_insert_ne. Qed.

Lemma first_parent_labelled (d : dict) : first_parent (labelled idmap d) = first_parent d.
Proof.
  unfold labelled. destruct (first_parent d) as [p | e |] eqn:Hp; try done.
  destruct (idmap !! p); [|done]. by rewrite first_parent_created_by.
Qed.

Lemma labelled_idemp (d : dict) : labelled idmap (labelled idmap d) = labelled idmap d.
Proof.
  unfold labelled at 1. rewrite first_parent_labelled.
  unfold labelled. destruct (first_parent d) as [p | e |] eqn:Hp; try done.
  destruct (idmap !! p) as [v|]; [|done]. apply insert_insert_eq.
Qed.

Lemma labelled_frame (d : dict) (k : string) :
  k ≠ "created_by" → labelled idmap d !! k = d !! k.
Proof.
  intros Hk. unfold labelled. destruct (first_parent d) as [p | e |]; try done.
  destruct (idmap !! p); [|done]. by rewrite lookup_insert_ne.
Qed.

Lemma add_created_by_at_run (i : nat) (l : loc) (h : heap) :
  collected_files !! i = Some l →
  attributable idmap h l →
  add_created_by_at collected_files idmap i h
  = (Ok tt, <[l := labelled idmap (h l)]> h).
Proof.
  intros Hl (p & Hp & [v Hv]). unfold add_created_by_at. rewrite Hl.
  rewrite bind_unfold. unfold get_state at 1.
  rewrite bind_unfold. unfold lift_outcome at 1. rewrite Hp. simpl. rewrite Hv.
  unfold labelled. by rewrite Hp, Hv.
Qed.

Lemma add_created_by_loop_run (n : nat) :
  ∀ (a : nat) (h : heap),
    (a + n)%nat = length collected_files →
    (∀ l, l ∈ collected_files → attributable idmap h l) →
    ∃ h',
      for_each (seq a n) (add_created_by_at collected_files idmap) h = (Ok tt, h')
      ∧ (∀ l, l ∈ drop a collected_files → h' l = labelled idmap (h l))
      ∧ (∀ l, l ∉ drop a collected_files → h' l = h l).
Proof.
  induction n as [|n IH]; intros a h Hlen Hattr; simpl.
  - exists h. split_and!; [done | | done].
    intros l Hl. rewrite drop_ge in Hl by lia. by apply elem_of_nil in Hl.
  - destruct (lookup_lt_is_Some_2 collected_files a ltac:(lia)) as [la Hla].
    assert (Hdrop : drop a collected_files = la :: drop (S a) collected_files)
      by (by apply drop_S).
    rewrite bind_unfold.
    rewrite (add_created_by_at_run a la h Hla)
      by (apply Hattr; by eapply list_elem_of_lookup_2).
    set (h1 := <[la := labelled idmap (h la)]> h).
    assert (Hh1 : ∀ l, h1 l = if decide (la = l) then labelled idmap (h l) else h l).
    { intros l. unfold h1. case_decide as Hl.
      - subst. apply fn_lookup_insert.
      - by apply fn_lookup_insert_ne. }
    destruct (IH (S a) h1) as (h' & Hrun & Hin & Hout); [lia | |].
    { intros l Hl. destruct (Hattr l Hl) as (p & Hp & Hv). exists p. split; [|done].
      rewrite Hh1. case_decide; [by rewrite first_parent_labelled | done]. }
    exists h'. split_and!; [done | |].
    + intros l Hl. rewrite Hdrop in Hl.
      destruct (decide (l ∈ drop (S a) collected_files)) as [Hlater | Hlater].
      * rewrite (Hin l Hlater), Hh1. case_decide; [apply labelled_idemp | done].
      * apply elem_of_cons in Hl as [-> | Hl]; [|done].
        rewrite (Hout la Hlater), Hh1. by rewrite decide_True.
    + intros l Hl. rewrite Hdrop in Hl. apply not_elem_of_cons in Hl as [Hne Hl].
      rewrite (Hout l Hl), Hh1. by rewrite decide_False.
Qed.

(** When the first parent of every record of the batch is a key of
    [idmap], [add_created_by_to_files] returns its list, every record of
    the list carries as [created_by] the label of its first parent, no
    other field is changed and no other record is touched. *)
Theorem add_created_by_labels_every_record (h : heap) :
  (∀ l, l ∈ collected_files → attributable idmap h l) →
  ∃ h',
    add_created_by_to_files collected_files idmap h = (Ok collected_files, h')
    ∧ (∀ l, l ∈ collected_files →
         ∃ p v, first_parent (h l) = Ok p ∧ idmap !! p = Some v
                ∧ h' l = <["created_by" := v]> (h l))
    ∧ (∀ l, l ∉ collected_files → h' l = h l)
    ∧ (∀ l k, k ≠ "created_by" → h' l !! k = h l !! k).
Proof.
  intros Hattr.
  destruct (add_created_by_loop_run (length collected_files) 0 h eq_refl Hattr)
    as (h' & Hrun & Hin & Hout).
  rewrite drop_0 in Hin, Hout.
  exists h'. split_and!.
  - unfold add_created_by_to_files. by rewrite bind_unfold, Hrun.
  - intros l Hl. destruct (Hattr l Hl) as (p & Hp & [v Hv]). exists p, v.
    split_and!; [done | done |]. rewrite (Hin l Hl). unfold labelled. by rewrite Hp, Hv.
  - done.
  - intros l k Hk. destruct (decide (l ∈ collected_files)) as [Hl | Hl].
    + rewrite (Hin l Hl). by apply labelled_frame.
    + by rewrite (Hout l Hl).
Qed.

Lemma add_created_by_at_missing (i : nat) (l : loc) (h : heap) (p : string) :
  collected_files !! i = Some l →
  first_parent (h l) = Ok p →
  idmap !! p = None →
  add_created_by_at collected_files idmap i h = (Raise KeyError, h).
Proof.
  intros Hl Hp Hv. unfold add_created_by_at. rewrite Hl.
  rewrite bind_unfold. unfold get_state at 1.
  rewrite bind_unfold. unfold lift_outcome at 1. rewrite Hp. simpl. by rewrite Hv.
Qed.

Lemma add_created_by_loop_missing (n : nat) :
  ∀ (a : nat) (h : heap),
    (a + n)%nat = length collected_files →
    (∀ l, l ∈ collected_files → ∃ p, first_parent (h l) = Ok p) →
    (∃ l p, l ∈ drop a collected_files ∧ first_parent (h l) = Ok p ∧ idmap !! p = None) →
    (for_each (seq a n) (add_created_by_at collected_files idmap) h).1 = Raise KeyError.
Proof.
  induction n as [|n IH]; intros a h Hlen Hparents (l & p & Hl & Hp & Hv).
  - rewrite drop_ge in Hl by lia. by apply elem_of_nil in Hl.
  - destruct (lookup_lt_is_Some_2 collected_files a ltac:(lia)) as [la Hla].
    assert (Hdrop : drop a collected_files = la :: drop (S a) collected_files)
      by (by apply drop_S).
    destruct (Hparents la ltac:(by eapply list_elem_of_lookup_2)) as [pa Hpa].
    simpl. rewrite bind_unfold.
    destruct (idmap !! pa) as [va|] eqn:Hva.
    + rewrite (add_created_by_at_run a la h Hla) by (exists pa; by split).
      set (h1 := <[la := labelled idmap (h la)]> h).
      assert (Hfp : ∀ l', first_parent (h1 l') = first_parent (h l')).
      { intros l'. unfold h1. destruct (decide (la = l')) as [<- | Hne].
        - rewrite fn_lookup_insert. apply first_parent_labelled.
        - by rewrite fn_lookup_insert_ne. }
      apply IH; [lia | |].
      * intros l' Hl'. rewrite Hfp. by apply Hparents.
      * exists l, p. rewrite Hfp. split_and!; [|done|done].
        rewrite Hdrop in Hl. apply elem_of_cons in Hl as [-> | Hl]; [|done].
        congruence.
    + by rewrite (add_created_by_at_missing a la h pa).
Qed.

(** When the first parent of some record of the batch is not a key of
    [idmap], [add_created_by_to_files] ends in [KeyError]. *)
Theorem add_created_by_fails_on_missing_label (h : heap) :
  (∀ l, l ∈ collected_files → ∃ p, first_parent (h l) = Ok p) →
  (∃ l p, l ∈ collected_files ∧ first_parent (h l) = Ok p ∧ idmap !! p = None) →
  (add_created_by_to_files collected_files idmap h).1 = Raise KeyError.
Proof.
  intros Hparents Hbad.
  pose proof (add_created_by_loop_missing (length collected_files) 0 h eq_refl Hparents)
    as Hloop.
  rewrite drop_0 in Hloop. specialize (Hloop Hbad).
  unfold add_created_by_to_files. rewrite bind_unfold.
  destruct (for_each _ _ h) as [[[] | e |] h']; simpl in *; congruence.
Qed.

End AddCreatedBy.

(** The collection of the fixtures as a batch, with the labels of both
    folders: the second record is labelled after the folder [Q]. *)
Lemma add_created_by_labels_every_record_witness :
  ∃ h',
    add_created_by_to_files [0%nat; 1%nat; 2%nat] Fixtures.owner_labels
      Fixtures.recordings_heap = (Ok [0%nat; 1%nat; 2%nat], h')
    ∧ h' 1%nat = <["created_by" := VStr "Jaden"]> (Fixtures.recordings_heap 1%nat).
Proof.
  destruct (add_created_by_labels_every_record [0%nat; 1%nat; 2%nat] Fixtures.owner_labels
              Fixtures.recordings_heap) as (h' & Hrun & Hin & _).
  - intros l Hl.
    repeat (apply elem_of_cons in Hl as [-> | Hl]); [| | |by apply elem_of_nil in Hl];
      eexists; (split; [reflexivity | by eexists]).
  - exists h'. split; [done|].
    destruct (Hin 1%nat) as (p & v & Hp & Hv & ->); [right; left|].
    injection Hp as <-. vm_compute in Hv. by injection Hv as <-.
Defined.

(** The same batch with a map that has no label for the folder [Q]. *)
Lemma add_created_by_fails_on_missing_label_witness :
  (add_created_by_to_files [0%nat; 1%nat; 2%nat] Fixtures.partial_labels
     Fixtures.recordings_heap).1 = Raise KeyError.
Proof.
  apply add_created_by_fails_on_missing_label.
  - intros l Hl.
    repeat (apply elem_of_cons in Hl as [-> | Hl]); [| | |by apply elem_of_nil in Hl];
      eexists; reflexivity.
  - exists 1%nat, "Q". split_and!; [right; left | reflexivity | reflexivity].
Defined.

Section AttributionOfABatch.
Context {W : Type} (service : drive W).

(** The map that [get_idmap] builds from a batch covers the batch:
    [add_created_by_to_files] with that map never fails on the records
    the map was built from, and labels each of them. *)
Theorem get_idmap_covers_its_batch (collected_files : list loc) (h : heap)
    (w w' : world W) (idmap : gmap string value) :
  get_idmap service (h <$> collected_files) w = (Ok idmap, w') →
  ∃ h',
    add_created_by_to_files collected_files idmap h = (Ok collected_files, h')
    ∧ ∀ l, l ∈ collected_files →
        ∃ p v, first_parent (h l) = Ok p ∧ idmap !! p = Some v
               ∧ h' l = <["created_by" := v]> (h l).
Proof.
  intros Hrun. unfold get_idmap in Hrun.
  apply bind_ok in Hrun as (pids & w1 & Hp & Hrun).
  apply lift_outcome_ok in Hp as [Hp ->].
  apply parents_loop_spec in Hp as (parents & Hall & ->).
  rewrite app_nil_r in Hrun. unfold run_local in Hrun.
  destruct (names_loop service (reverse parents) (∅, w)) as [[[] | e |] [m w2]] eqn:Hloop;
    try discriminate.
  simpl in Hrun. injection Hrun as <- <-.
  apply names_loop_lookups in Hloop as [_ Hdom].
  assert (Hattr : ∀ l, l ∈ collected_files → attributable m h l).
  { intros l Hl. apply list_elem_of_lookup_1 in Hl as [i Hi].
    assert (Hfile : (h <$> collected_files) !! i = Some (h l))
      by (by rewrite list_lookup_fmap, Hi).
    destruct (Forall2_lookup_l _ _ _ _ _ Hall Hfile) as (p & Hp & Hfp).
    exists p. split; [done|]. apply elem_of_dom. rewrite Hdom.
    apply elem_of_union. right. apply elem_of_list_to_set, elem_of_reverse.
    by eapply list_elem_of_lookup_2. }
  destruct (add_created_by_loop_run collected_files m (length collected_files) 0 h
              eq_refl Hattr) as (h' & Hloop & Hin & _).
  rewrite drop_0 in Hin. exists h'. split.
  - unfold add_created_by_to_files. by rewrite bind_unfold, Hloop.
  - intros l Hl. destruct (Hattr l Hl) as (p & Hp & [v Hv]). exists p, v.
    split_and!; [done | done |]. rewrite (Hin l Hl). unfold labelled. by rewrite Hp, Hv.
Qed.

End AttributionOfABatch.

(** The batch of the fixtures against the reader's store, which knows the
    folder [P] and not the folder [Q]. *)
Lemma get_idmap_covers_its_batch_witness :
  ∃ idmap w',
    get_idmap Fixtures.reader_drive (Fixtures.recordings_heap <$> [0%nat; 1%nat; 2%nat])
      Fixtures.start = (Ok idmap, w')
    ∧ ∃ h',
        add_created_by_to_files [0%nat; 1%nat; 2%nat] idmap Fixtures.recordings_heap
        = (Ok [0%nat; 1%nat; 2%nat], h')
        ∧ ∀ l, l ∈ [0%nat; 1%nat; 2%nat] →
            ∃ p v, first_parent (Fixtures.recordings_heap l) = Ok p ∧ idmap !! p = Some v
                   ∧ h' l = <["created_by" := v]> (Fixtures.recordings_heap l).
Proof.
  eexists _, _. split; [vm_compute; reflexivity|].
  eapply (get_idmap_covers_its_batch Fixtures.reader_drive [0%nat; 1%nat; 2%nat]
            Fixtures.recordings_heap Fixtures.start).
  vm_compute. reflexivity.
Defined.

(** ** Labels in the persisted store *)

Section StoreLabels.
Context (idmap : gmap string value).

Lemma parents_0_is_spec (fid : string) (doc : dict) :
  parents_0_is fid doc = true ↔ stored_first_parent doc = Some fid.
Proof.
  unfold parents_0_is, stored_first_parent.
  destruct (doc !! "parents") as [[| s | [|p ps]]|]; try (split; discriminate).
  rewrite bool_decide_eq_true. split; [by intros -> | by intros [= ->]].
Qed.

(** The label left on a document when every identifier is a key of
    [idmap]: the one of its first parent if that is among the
    identifiers. *)
Lemma last_label_total (ids : list string) (doc : dict) :
  ∀ cur,
    (∀ fid, fid ∈ ids → is_Some (idmap !! fid)) →
    last_label idmap ids doc cur
    = match stored_first_parent doc with
      | Some p => if decide (p ∈ ids) then idmap !! p else cur
      | None => cur
      end.
Proof.
  induction ids as [|fid rest IH]; intros cur Hkeys; cbn [last_label].
  - destruct (stored_first_parent doc) as [p|]; [|done].
    rewrite decide_False; [done | apply not_elem_of_nil].
  - destruct (Hkeys fid ltac:(left)) as [name Hname]. rewrite Hname.
    rewrite IH by (intros f Hf; apply Hkeys; by right).
    destruct (parents_0_is fid doc) eqn:Hmatch.
    + apply parents_0_is_spec in Hmatch. rewrite Hmatch.
      rewrite (decide_True (P := fid ∈ fid :: rest)) by left.
      case_decide as Hin; [|done].
      by destruct (Hkeys fid ltac:(by right)) as [v Hv]; rewrite Hv in *.
    + destruct (stored_first_parent doc) as [p|] eqn:Hp; [|done].
      assert (p ≠ fid).
      { intros ->. apply parents_0_is_spec in Hp. congruence. }
      destruct (decide (p ∈ rest)) as [Hin | Hin].
      * rewrite decide_True; [done | by right].
      * rewrite decide_False; [done|]. by intros [? | ?]%elem_of_cons.
Qed.

Lemma relabel_outcome_total (ids : list string) :
  (∀ fid, fid ∈ ids → is_Some (idmap !! fid)) → relabel_outcome idmap ids = Ok tt.
Proof.
  induction ids as [|fid rest IH]; intros Hkeys; simpl; [done|].
  destruct (Hkeys fid ltac:(left)) as [name ->]. apply IH.
  intros f Hf. apply Hkeys. by right.
Qed.

(** When every identifier is a key of the map,
    [update_created_by_in_mongo] returns and leaves the documents in
    their order: a document whose first parent is one of the
    identifiers carries the label of that parent, every other document
    is as it was. *)
Theorem update_created_by_labels_by_first_parent (distinct_ids : list string)
    (docs : list dict) :
  (∀ fid, fid ∈ distinct_ids → is_Some (idmap !! fid)) →
  update_created_by_in_mongo distinct_ids idmap docs
  = (Ok tt,
     (λ doc,
        match stored_first_parent doc with
        | Some p => if decide (p ∈ distinct_ids) then set_label (idmap !! p) doc else doc
        | None => doc
        end) <$> docs).
Proof.
  intros Hkeys. rewrite update_created_by_in_mongo_run.
  rewrite relabel_outcome_total by done. f_equal.
  apply list_fmap_ext. intros i doc _.
  rewrite (relabel_set_label idmap distinct_ids doc None : relabel _ _ doc = _).
  rewrite last_label_total by done.
  destruct (stored_first_parent doc) as [p|]; [|done]. by case_decide.
Qed.

Lemma relabel_stops (before after : list string) (missing : string) (doc : dict) :
  (∀ fid, fid ∈ before → is_Some (idmap !! fid)) →
  idmap !! missing = None →
  relabel idmap (before ++ missing :: after) doc = relabel idmap before doc
  ∧ relabel_outcome idmap (before ++ missing :: after) = Raise KeyError.
Proof.
  revert doc. induction before as [|fid rest IH]; intros doc Hkeys Hmissing; simpl.
  - by rewrite Hmissing.
  - destruct (Hkeys fid ltac:(left)) as [name ->]. apply IH; [|done].
    intros f Hf. apply Hkeys. by right.
Qed.

(** At the first identifier that is not a key of the map,
    [update_created_by_in_mongo] ends in [KeyError]: the updates of the
    identifiers before it stay applied, those after it are not made. *)
Theorem update_created_by_stops_at_missing_key (before after : list string)
    (missing : string) (docs : list dict) :
  (∀ fid, fid ∈ before → is_Some (idmap !! fid)) →
  idmap !! missing = None →
  update_created_by_in_mongo (before ++ missing :: after) idmap docs
  = (Raise KeyError, (update_created_by_in_mongo before idmap docs).2).
Proof.
  intros Hkeys Hmissing. rewrite !update_created_by_in_mongo_run. simpl.
  rewrite (proj2 (relabel_stops before after missing ∅ Hkeys Hmissing)). f_equal.
  apply list_fmap_ext. intros i doc _.
  apply (relabel_stops before after missing doc Hkeys Hmissing).
Qed.

End StoreLabels.

(** The collection of the fixtures and the labels of both its folders. *)
Lemma update_created_by_labels_by_first_parent_witness :
  update_created_by_in_mongo ["P"; "Q"] Fixtures.owner_labels Fixtures.recordings
  = (Ok tt, Fixtures.labelled_recordings).
Proof.
  etrans; [apply update_created_by_labels_by_first_parent | reflexivity].
  intros fid Hfid.
  repeat (apply elem_of_cons in Hfid as [-> | Hfid]); [| |by apply elem_of_nil in Hfid];
    by eexists.
Defined.

(** The identifier [Z] has no label: the update for [P] is made, the
    one for [Q] is not. *)
Lemma update_created_by_stops_at_missing_key_witness :
  Fixtures.owner_labels !! "Z" = None
  ∧ update_created_by_in_mongo (["P"] ++ "Z" :: ["Q"]) Fixtures.owner_labels
      Fixtures.recordings
    = (Raise KeyError,
       (update_created_by_in_mongo ["P"] Fixtures.owner_labels Fixtures.recordings).2).
Proof.
  split; [reflexivity|].
  apply update_created_by_stops_at_missing_key; [|reflexivity].
  intros fid Hfid.
  repeat (apply elem_of_cons in Hfid as [-> | Hfid]); [|by apply elem_of_nil in Hfid].
  by eexists.
Defined.

Section NamesForTheStore.
Context {W : Type} (service : drive W).

Lemma map_ids_to_names_dom (ids : list string) (idmap : gmap string value)
    (w w' : world W) :
  map_ids_to_names service ids w = (Ok idmap, w') →
  ∀ fid, fid ∈ ids → is_Some (idmap !! fid).
Proof.
  intros Hrun fid Hfid. unfold map_ids_to_names, run_local in Hrun.
  destruct (names_loop service ids (∅, w)) as [[[] | e |] [m w2]] eqn:Hloop;
    try discriminate.
  simpl in Hrun. injection Hrun as <- <-.
  apply names_loop_lookups in Hloop as [_ Hdom].
  apply elem_of_dom. rewrite Hdom. apply elem_of_union. right.
  by apply elem_of_list_to_set.
Qed.

(** The map that [map_ids_to_names] builds for a list of identifiers
    has a label for each of them: [update_created_by_in_mongo] with
    that list and that map never ends in [KeyError]. *)
Theorem map_ids_to_names_feeds_update (distinct_ids : list string)
    (idmap : gmap string value) (w w' : world W) (docs : list dict) :
  map_ids_to_names service distinct_ids w = (Ok idmap, w') →
  (update_created_by_in_mongo distinct_ids idmap docs).1 = Ok tt.
Proof.
  intros Hrun. rewrite update_created_by_in_mongo_run. simpl.
  apply relabel_outcome_total. by eapply map_ids_to_names_dom.
Qed.

Lemma read_file_content_unreadable (fid : string) (w : world W) :
  unreadable service fid →
  (read_file_content service fid w).1 = Ok (VNone, VNone).
Proof.
  intros Hbad. unfold read_file_content, get_file_metadata, except_http, try_except.
  rewrite !bind_unfold. unfold request_get. specialize (Hbad (remote w)).
  destruct (files_get service fid metadata_fields (remote w)) as [r rem1].
  simpl in Hbad. subst r. done.
Qed.

Lemma names_loop_unreadable (fid : string) (ids : list string) :
  unreadable service fid →
  ∀ (idmap idmap' : gmap string value) (w w' : world W),
    names_loop service ids (idmap, w) = (Ok tt, (idmap', w')) →
    idmap !! fid = Some VNone ∨ fid ∈ ids →
    idmap' !! fid = Some VNone.
Proof.
  intros Hbad. unfold names_loop.
  induction ids as [|x rest IH]; intros idmap idmap' w w'; simpl.
  - intros [= <- <-] [H | H]; [done | by apply elem_of_nil in H].
  - rewrite bind_unfold, resolve_name_run.
    pose proof (read_file_content_unreadable fid w Hbad) as Hread.
    destruct (read_file_content service x w) as [[item | e |] w1] eqn:Hx;
      simpl; try discriminate.
    intros Hrun Hfid. apply (IH _ _ _ _ Hrun).
    destruct (decide (x = fid)) as [-> | Hne].
    + left. rewrite Hx in Hread. simpl in Hread. injection Hread as ->.
      by rewrite lookup_insert_eq.
    + destruct Hfid as [Hfid | Hfid].
      * left. by rewrite lookup_insert_ne.
      * right. apply elem_of_cons in Hfid as [-> | Hfid]; [done | done].
Qed.

(** A parent folder whose metadata cannot be fetched is not left out of
    the map: in every map that [get_idmap] or [map_ids_to_names] returns
    the folder is a key, and its label is [None]. *)
Theorem unreadable_folder_is_labelled_none (fid : string) (w : world W) :
  unreadable service fid →
  (∀ shared_files idmap w' file,
     get_idmap service shared_files w = (Ok idmap, w') →
     file ∈ shared_files → first_parent file = Ok fid →
     idmap !! fid = Some VNone)
  ∧ (∀ distinct_ids idmap w',
       map_ids_to_names service distinct_ids w = (Ok idmap, w') →
       fid ∈ distinct_ids →
       idmap !! fid = Some VNone).
Proof.
  intros Hbad. split.
  - intros shared_files idmap w' file Hrun Hfile Hfp. unfold get_idmap in Hrun.
    apply bind_ok in Hrun as (pids & w1 & Hp & Hrun).
    apply lift_outcome_ok in Hp as [Hp ->].
    apply parents_loop_spec in Hp as (parents & Hall & ->).
    rewrite app_nil_r in Hrun. unfold run_local in Hrun.
    destruct (names_loop service (reverse parents) (∅, w)) as [[[] | e |] [m w2]] eqn:Hloop;
      try discriminate.
    simpl in Hrun. injection Hrun as <- <-.
    apply (names_loop_unreadable fid _ Hbad _ _ _ _ Hloop). right.
    apply elem_of_reverse.
    apply list_elem_of_lookup_1 in Hfile as [i Hi].
    destruct (Forall2_lookup_l _ _ _ _ _ Hall Hi) as (p & Hp & Hfp').
    assert (p = fid) as -> by congruence. by eapply list_elem_of_lookup_2.
  - intros ids idmap w' Hrun Hfid. unfold map_ids_to_names, run_local in Hrun.
    destruct (names_loop service ids (∅, w)) as [[[] | e |] [m w2]] eqn:Hloop;
      try discriminate.
    simpl in Hrun. injection Hrun as <- <-.
    apply (names_loop_unreadable fid _ Hbad _ _ _ _ Hloop). by right.
Qed.

End NamesForTheStore.

(** The folders [P] and [Q] resolved against the reader's store. *)
Lemma map_ids_to_names_feeds_update_witness :
  ∃ idmap w',
    map_ids_to_names Fixtures.reader_drive ["P"; "Q"] Fixtures.start = (Ok idmap, w')
    ∧ (update_created_by_in_mongo ["P"; "Q"] idmap Fixtures.recordings).1 = Ok tt.
Proof.
  eexists _, _. split; [vm_compute; reflexivity|].
  eapply (map_ids_to_names_feeds_update Fixtures.reader_drive ["P"; "Q"] _ Fixtures.start).
  vm_compute. reflexivity.
Defined.

(** The reader's store does not know the folder [Q]. *)
Lemma unreadable_folder_is_labelled_none_witness :
  unreadable Fixtures.reader_drive "Q"
  ∧ ∃ idmap w',
      map_ids_to_names Fixtures.reader_drive ["P"; "Q"] Fixtures.start = (Ok idmap, w')
      ∧ idmap !! "Q" = Some VNone.
Proof.
  assert (Hbad : unreadable Fixtures.reader_drive "Q") by (intros rem; reflexivity).
  split; [done|]. eexists _, _. split; [vm_compute; reflexivity|].
  eapply (proj2 (unreadable_folder_is_labelled_none Fixtures.reader_drive "Q"
                   Fixtures.start Hbad) ["P"; "Q"]); [vm_compute; reflexivity|].
  right; left.
Defined.

(** ** From the records to their contents *)

Lemma file_ids_of_ok (collected_files : list dict) :
  ∀ ids, file_ids_of collected_files = Ok ids →
         Forall2 (λ file fid, get_id file = Ok fid) collected_files ids.
Proof.
  induction collected_files as [|file rest IH]; intros ids; simpl.
  - intros [= <-]. constructor.
  - destruct (get_id file) as [fid | e |] eqn:Hid; try discriminate.
    destruct (file_ids_of rest) as [fids | e |]; try discriminate.
    intros [= <-]. constructor; [done | by apply IH].
Qed.

Lemma raises_only_for_each_elem {S A} (E : exn → Prop) (l : list A)
    (body : A → M S unit) :
  (∀ x, x ∈ l → raises_only E (body x)) → raises_only E (for_each l body).
Proof.
  induction l as [|x l IH]; intros Hbody; simpl.
  - apply raises_only_ret.
  - apply raises_only_bind; [apply Hbody; left|]. intros _. apply IH.
    intros y Hy. apply Hbody. by right.
Qed.

Section CollectContents.
Context {W : Type} (service : drive W).


Lemma file_ids_of_missing (collected_files : list dict) :
  Forall (λ file, file !! "id" = None ∨ ∃ fid, file !! "id" = Some (VStr fid))
    collected_files →
  (∃ file, file ∈ collected_files ∧ file !! "id" = None) →
  file_ids_of collected_files = Raise KeyError.
Proof.
  induction 1 as [|file rest Hfile Hrest IH]; intros (bad & Hin & Hbad).
  - by apply elem_of_nil in Hin.
  - simpl. unfold get_id. destruct Hfile as [Hnone | [fid Hfid]].
    + by rewrite Hnone.
    + rewrite Hfid. rewrite IH; [done|].
      apply elem_of_cons in Hin as [-> | Hin]; [congruence|]. by exists bad.
Qed.

(** A record without identifier makes [collect_contents] raise
    [KeyError] before any request is sent. *)
Theorem collect_contents_fails_before_any_request (collected_files : list dict)
    (w : world W) :
  Forall (λ file, file !! "id" = None ∨ ∃ fid, file !! "id" = Some (VStr fid))
    collected_files →
  (∃ file, file ∈ collected_files ∧ file !! "id" = None) →
  collect_contents service collected_files w = (Raise KeyError, w).
Proof.
  intros Htyped Hbad. unfold collect_contents. rewrite bind_unfold.
  unfold lift_outcome at 1. by rewrite file_ids_of_missing.
Qed.

End CollectContents.


(** The second record of the batch has a name and no identifier. *)
Lemma collect_contents_fails_before_any_request_witness :
  collect_contents Fixtures.reader_drive Fixtures.nameless_id_batch Fixtures.start
  = (Raise KeyError, Fixtures.start).
Proof.
  apply collect_contents_fails_before_any_request.
  - constructor; [right; by eexists|]. constructor; [by left | constructor].
  - eexists. split; [right; left | reflexivity].
Defined.

Section JoinOfContents.
Context {W : Type} (service : drive W).

Lemma add_contents_loop_no_index_error (collected_files : list loc)
    (c_files_shared : list (value * value)) (n : nat) :
  ∀ (a : nat) (h : heap),
    (a + n)%nat = length collected_files →
    length c_files_shared = length collected_files →
    (for_each (seq a n) (add_contents_at collected_files c_files_shared) h).1 = Ok tt
    ∨ (for_each (seq a n) (add_contents_at collected_files c_files_shared) h).1
      = Raise KeyError.
Proof.
  induction n as [|n IH]; intros a h Hlen Hlens; simpl; [by left|].
  destruct (lookup_lt_is_Some_2 collected_files a ltac:(lia)) as [la Hla].
  destruct (lookup_lt_is_Some_2 c_files_shared a ltac:(lia)) as [[fname fcontent] Hfa].
  rewrite !bind_unfold.
  destruct (add_contents_at collected_files c_files_shared a h) as [[[] | e |] h1] eqn:Hstep;
    simpl.
  - apply IH; [lia | done].
  - right. unfold add_contents_at in Hstep. rewrite Hla, bind_unfold in Hstep.
    unfold get_state at 1 in Hstep. rewrite Hfa in Hstep.
    destruct (h la !! "name"); [case_decide|];
      cbv [mret M_ret raise put_state] in Hstep; congruence.
  - exfalso. unfold add_contents_at in Hstep. rewrite Hla, bind_unfold in Hstep.
    unfold get_state at 1 in Hstep. rewrite Hfa in Hstep.
    destruct (h la !! "name"); [case_decide|];
      cbv [mret M_ret raise put_state] in Hstep; congruence.
Qed.

(** The pairs that [collect_contents] returns for a batch are as many as
    the records: joined to the batch by [add_contents_to_files] they
    never run short, and the join either returns the batch or ends in
    the [KeyError] of a record without name. *)
Theorem collected_contents_join_by_position (collected_files : list loc) (h : heap)
    (w w' : world W) (fetched : list (value * value)) :
  collect_contents service (h <$> collected_files) w = (Ok fetched, w') →
  (add_contents_to_files collected_files fetched h).1 = Ok collected_files
  ∨ (add_contents_to_files collected_files fetched h).1 = Raise KeyError.
Proof.
  unfold collect_contents. intros Hrun.
  apply bind_ok in Hrun as (ids & w1 & Hids & Hrun).
  apply lift_outcome_ok in Hids as [Hids ->].
  apply file_ids_of_ok, Forall2_length in Hids.
  rewrite read_multiple_files_run in Hrun. injection Hrun as <- <-.
  rewrite length_fmap in Hids.
  pose proof (add_contents_loop_no_index_error collected_files
                (fetch_each service ids w).1 (length collected_files) 0 h eq_refl
                ltac:(by rewrite fetch_each_length)) as Hloop.
  unfold add_contents_to_files. rewrite bind_unfold.
  destruct (for_each _ _ h) as [[[] | e |] h']; simpl in *.
  - by left.
  - right. destruct Hloop; congruence.
  - destruct Hloop; discriminate.
Qed.

End JoinOfContents.

(** The two records of the fixtures, whose identifiers the reader does
    not know: nothing is fetched, the join returns the batch. *)
Lemma collected_contents_join_by_position_witness :
  (add_contents_to_files [0%nat; 1%nat] [(VNone, VNone); (VNone, VNone)]
     Fixtures.batch_heap).1 = Ok [0%nat; 1%nat]
  ∨ (add_contents_to_files [0%nat; 1%nat] [(VNone, VNone); (VNone, VNone)]
       Fixtures.batch_heap).1 = Raise KeyError.
Proof.
  apply (collected_contents_join_by_position Fixtures.reader_drive [0%nat; 1%nat]
           Fixtures.batch_heap Fixtures.start
           (collect_contents Fixtures.reader_drive
              (Fixtures.batch_heap <$> [0%nat; 1%nat]) Fixtures.start).2).
  vm_compute. reflexivity.
Defined.
